(** * A shallow embedding of the voice assistant engine of
    [src/components/features/assistant/AssistantView.tsx].

    The React component keeps its engine in refs and state hooks; here
    they are the fields of one record [Engine], and every callback of the
    component (the inbound-message handler, [stopConversation], the two
    halves of [startConversation] around its [await], [onopen], the capture
    callback, browser timers) is a function on it.  Observable effects
    (tool responses, [window.open], [location.href], started and stopped
    playback sources, outbound audio, closing devices) are appended to the
    [effects] log in the order the code performs them.

    Times are seconds, as in the Web Audio API, represented as rationals:
    the scheduler only compares, takes maxima and adds, so the claims
    about it do not depend on the rounding of doubles. *)

From Stdlib Require Import String Ascii List ZArith QArith Qround Lqa Lia Bool.
Import ListNotations.
Open Scope string_scope.

(** ** Data model *)

(** [type AssistantState = 'idle' | 'listening' | 'connecting' | 'speaking'] *)
Inductive AssistantState := Idle | Listening | Connecting | Speaking.

Definition AssistantState_eqb (a b : AssistantState) : bool :=
  match a, b with
  | Idle, Idle | Listening, Listening | Connecting, Connecting
  | Speaking, Speaking => true
  | _, _ => false
  end.

(** An [AudioBufferSourceNode] scheduled by the playback path. *)
Record Source := mkSource { src_id : nat; src_start : Q; src_dur : Q }.

(** The callbacks a [window.setTimeout] of this component can carry. *)
Inductive TimerCb :=
| DrainToListening                 (* setState('listening'); ref = null *)
| NavigateTo (url : string).       (* window.location.href = url *)

Record Timer := mkTimer { t_id : nat; t_delay : Q; t_cb : TimerCb }.

Inductive Effect :=
| SendToolResponse (id name result : string)
| WindowOpen (url : string)
| LocationHref (url : string)
| StartSource (s : Source)
| StopSource (s : Source)
| SendRealtimeInput (pcm : list Z)
| CloseSession
| StopTracks
| CloseInputCtx
| CloseOutputCtx.

(** The refs and state of the component.
    - [session]: [sessionPromiseRef.current !== null];
    - [mediaStream], [inputCtx], [outputCtx]: the corresponding refs are set
      (a context is open while its ref is set);
    - [capture]: the script processor is connected, so [onaudioprocess] runs;
    - [startPending]: [startConversation] is suspended at
      [await getUserMedia];
    - [openPending]: a session was requested and its [onopen] has not run;
    - [nextStartTime], [outputSources], [timeoutRef]: [nextStartTimeRef],
      [outputSourcesRef], [transitionToListeningTimeoutRef];
    - [timers]: the browser's pending timers; [freshId]: the next timer or
      source handle (browser timer ids are positive);
    - [systemActions]: the recent-actions log;
    - [openAudioContexts]: the browser's [AudioContext] objects created by
      the component and not closed yet.  A context ref is only ever set to
      a context just created and is nulled right after its [close()], so
      while a ref is set it holds an open context of its own. *)
Record Engine := mkEngine {
  state : AssistantState;
  session : bool;
  mediaStream : bool;
  inputCtx : bool;
  outputCtx : bool;
  capture : bool;
  startPending : bool;
  openPending : bool;
  nextStartTime : Q;
  outputSources : list Source;
  timeoutRef : option nat;
  timers : list Timer;
  freshId : nat;
  systemActions : list string;
  effects : list Effect;
  openAudioContexts : nat
}.

Definition initEngine : Engine :=
  mkEngine Idle false false false false false false false 0 [] None [] 1 [] [] 0.

(** Field updates. *)
Definition set_state v e := mkEngine v e.(session) e.(mediaStream) e.(inputCtx) e.(outputCtx) e.(capture) e.(startPending) e.(openPending) e.(nextStartTime) e.(outputSources) e.(timeoutRef) e.(timers) e.(freshId) e.(systemActions) e.(effects) e.(openAudioContexts).
Definition set_session v e := mkEngine e.(state) v e.(mediaStream) e.(inputCtx) e.(outputCtx) e.(capture) e.(startPending) e.(openPending) e.(nextStartTime) e.(outputSources) e.(timeoutRef) e.(timers) e.(freshId) e.(systemActions) e.(effects) e.(openAudioContexts).
Definition set_mediaStream v e := mkEngine e.(state) e.(session) v e.(inputCtx) e.(outputCtx) e.(capture) e.(startPending) e.(openPending) e.(nextStartTime) e.(outputSources) e.(timeoutRef) e.(timers) e.(freshId) e.(systemActions) e.(effects) e.(openAudioContexts).
Definition set_inputCtx v e := mkEngine e.(state) e.(session) e.(mediaStream) v e.(outputCtx) e.(capture) e.(startPending) e.(openPending) e.(nextStartTime) e.(outputSources) e.(timeoutRef) e.(timers) e.(freshId) e.(systemActions) e.(effects) e.(openAudioContexts).
Definition set_outputCtx v e := mkEngine e.(state) e.(session) e.(mediaStream) e.(inputCtx) v e.(capture) e.(startPending) e.(openPending) e.(nextStartTime) e.(outputSources) e.(timeoutRef) e.(timers) e.(freshId) e.(systemActions) e.(effects) e.(openAudioContexts).
Definition set_capture v e := mkEngine e.(state) e.(session) e.(mediaStream) e.(inputCtx) e.(outputCtx) v e.(startPending) e.(openPending) e.(nextStartTime) e.(outputSources) e.(timeoutRef) e.(timers) e.(freshId) e.(systemActions) e.(effects) e.(openAudioContexts).
Definition set_startPending v e := mkEngine e.(state) e.(session) e.(mediaStream) e.(inputCtx) e.(outputCtx) e.(capture) v e.(openPending) e.(nextStartTime) e.(outputSources) e.(timeoutRef) e.(timers) e.(freshId) e.(systemActions) e.(effects) e.(openAudioContexts).
Definition set_openPending v e := mkEngine e.(state) e.(session) e.(mediaStream) e.(inputCtx) e.(outputCtx) e.(capture) e.(startPending) v e.(nextStartTime) e.(outputSources) e.(timeoutRef) e.(timers) e.(freshId) e.(systemActions) e.(effects) e.(openAudioContexts).
Definition set_nextStartTime v e := mkEngine e.(state) e.(session) e.(mediaStream) e.(inputCtx) e.(outputCtx) e.(capture) e.(startPending) e.(openPending) v e.(outputSources) e.(timeoutRef) e.(timers) e.(freshId) e.(systemActions) e.(effects) e.(openAudioContexts).
Definition set_outputSources v e := mkEngine e.(state) e.(session) e.(mediaStream) e.(inputCtx) e.(outputCtx) e.(capture) e.(startPending) e.(openPending) e.(nextStartTime) v e.(timeoutRef) e.(timers) e.(freshId) e.(systemActions) e.(effects) e.(openAudioContexts).
Definition set_timeoutRef v e := mkEngine e.(state) e.(session) e.(mediaStream) e.(inputCtx) e.(outputCtx) e.(capture) e.(startPending) e.(openPending) e.(nextStartTime) e.(outputSources) v e.(timers) e.(freshId) e.(systemActions) e.(effects) e.(openAudioContexts).
Definition set_timers v e := mkEngine e.(state) e.(session) e.(mediaStream) e.(inputCtx) e.(outputCtx) e.(capture) e.(startPending) e.(openPending) e.(nextStartTime) e.(outputSources) e.(timeoutRef) v e.(freshId) e.(systemActions) e.(effects) e.(openAudioContexts).
Definition set_freshId v e := mkEngine e.(state) e.(session) e.(mediaStream) e.(inputCtx) e.(outputCtx) e.(capture) e.(startPending) e.(openPending) e.(nextStartTime) e.(outputSources) e.(timeoutRef) e.(timers) v e.(systemActions) e.(effects) e.(openAudioContexts).
Definition set_systemActions v e := mkEngine e.(state) e.(session) e.(mediaStream) e.(inputCtx) e.(outputCtx) e.(capture) e.(startPending) e.(openPending) e.(nextStartTime) e.(outputSources) e.(timeoutRef) e.(timers) e.(freshId) v e.(effects) e.(openAudioContexts).
Definition set_effects v e := mkEngine e.(state) e.(session) e.(mediaStream) e.(inputCtx) e.(outputCtx) e.(capture) e.(startPending) e.(openPending) e.(nextStartTime) e.(outputSources) e.(timeoutRef) e.(timers) e.(freshId) e.(systemActions) v e.(openAudioContexts).
Definition set_openAudioContexts v e := mkEngine e.(state) e.(session) e.(mediaStream) e.(inputCtx) e.(outputCtx) e.(capture) e.(startPending) e.(openPending) e.(nextStartTime) e.(outputSources) e.(timeoutRef) e.(timers) e.(freshId) e.(systemActions) e.(effects) v.

(** ** A state monad with exceptions

    A thrown JavaScript exception aborts the rest of the callback; the
    mutations already made stay (the refs are shared objects). *)
Definition M (A : Type) := Engine -> Engine * option A.

Definition ret {A} (a : A) : M A := fun e => (e, Some a).
Definition bind {A B} (m : M A) (k : A -> M B) : M B :=
  fun e => match m e with
           | (e', Some a) => k a e'
           | (e', None) => (e', None)
           end.
Definition throw {A} : M A := fun e => (e, None).
Definition get : M Engine := fun e => (e, Some e).
Definition modify (f : Engine -> Engine) : M unit := fun e => (f e, Some tt).

Notation "x <- c1 ;; c2" := (bind c1 (fun x => c2))
  (at level 61, c1 at next level, right associativity).
Notation "c1 ;; c2" := (bind c1 (fun _ : unit => c2))
  (at level 61, right associativity).

Definition emit (x : Effect) : M unit :=
  modify (fun e => set_effects (app e.(effects) [x]) e).

(** [window.setTimeout(cb, delay)]: a fresh positive id. *)
Definition setTimeout (delay : Q) (cb : TimerCb) : M nat :=
  e <- get ;;
  let id := e.(freshId) in
  modify (fun e => set_freshId (S id) (set_timers (app e.(timers) [mkTimer id delay cb]) e)) ;;
  ret id.

(** [clearTimeout(id)]: a no-op on an id that is no longer pending. *)
Definition clearTimeout (id : nat) : M unit :=
  modify (fun e => set_timers (filter (fun t => negb (Nat.eqb t.(t_id) id)) e.(timers)) e).

(** [setState(s)] *)
Definition setState (s : AssistantState) : M unit := modify (set_state s).

Definition Math_max (a b : Q) : Q := if Qle_bool a b then b else a.

Definition Qlt_bool (a b : Q) : bool := negb (Qle_bool b a).

(** ** JavaScript strings

    Strings are byte strings (the UTF-8 encoding of the JavaScript string).
    Arguments of a tool call are [option string]: [None] is [undefined]. *)

Definition dq : string := String (ascii_of_nat 34) EmptyString.

(** U+00A0, the no-break space (C2 A0). *)
Definition nbsp : string := String (ascii_of_nat 194) (String (ascii_of_nat 160) EmptyString).

(** [`${v}`] *)
Definition js_str (v : option string) : string :=
  match v with Some s => s | None => "undefined" end.

(** JavaScript truthiness of a string-valued argument. *)
Definition truthy (v : option string) : bool :=
  match v with Some s => negb (String.eqb s "") | None => false end.

Definition lower_ascii (c : ascii) : ascii :=
  let n := nat_of_ascii c in
  if (65 <=? n)%nat && (n <=? 90)%nat then ascii_of_nat (n + 32) else c.

(** [s.toLowerCase()] on the UTF-8 bytes: ASCII letters, and the two
    code points whose lower case is ASCII: U+0130 (C4 B0) becomes [i]
    followed by U+0307 (CC 87), and U+212A, the Kelvin sign (E2 84 AA),
    becomes [k].  Other non-ASCII letters are kept: their lower case is
    non-ASCII too, so no ASCII byte of the result depends on them. *)
Fixpoint toLowerCase (s : string) : string :=
  match s with
  | EmptyString => EmptyString
  | String c1 r1 =>
      match r1 with
      | String c2 r2 =>
          if (nat_of_ascii c1 =? 196)%nat && (nat_of_ascii c2 =? 176)%nat then
            String "i" (String (ascii_of_nat 204) (String (ascii_of_nat 135) (toLowerCase r2)))
          else match r2 with
               | String c3 r3 =>
                   if (nat_of_ascii c1 =? 226)%nat && (nat_of_ascii c2 =? 132)%nat
                      && (nat_of_ascii c3 =? 170)%nat
                   then String "k" (toLowerCase r3)
                   else String (lower_ascii c1) (toLowerCase r1)
               | EmptyString => String (lower_ascii c1) (toLowerCase r1)
               end
      | EmptyString => String (lower_ascii c1) EmptyString
      end
  end.

(** White space of ECMAScript, the set matched by [\s] and removed by
    [trim] (WhiteSpace and LineTerminator), in UTF-8.  One byte: TAB, LF,
    VT, FF, CR and SPACE. *)
Definition is_space (c : ascii) : bool :=
  let n := nat_of_ascii c in (n =? 32)%nat || ((9 <=? n)%nat && (n <=? 13)%nat).

(** Two bytes: U+00A0. *)
Definition is_space2 (c1 c2 : ascii) : bool :=
  (nat_of_ascii c1 =? 194)%nat && (nat_of_ascii c2 =? 160)%nat.

(** Three bytes: U+1680, U+2000 to U+200A, U+2028, U+2029, U+202F, U+205F,
    U+3000 and U+FEFF. *)
Definition is_space3 (c1 c2 c3 : ascii) : bool :=
  let n1 := nat_of_ascii c1 in let n2 := nat_of_ascii c2 in let n3 := nat_of_ascii c3 in
  (((n1 =? 225) && (n2 =? 154) && (n3 =? 128))
   || ((n1 =? 226) && (n2 =? 128)
       && (((128 <=? n3) && (n3 <=? 138)) || (n3 =? 168) || (n3 =? 169) || (n3 =? 175)))
   || ((n1 =? 226) && (n2 =? 129) && (n3 =? 159))
   || ((n1 =? 227) && (n2 =? 128) && (n3 =? 128))
   || ((n1 =? 239) && (n2 =? 187) && (n3 =? 191)))%nat.

(** The bytes after the white-space code points that begin [l]. *)
Fixpoint drop_space (l : list ascii) : list ascii :=
  match l with
  | [] => []
  | c1 :: r1 =>
      if is_space c1 then drop_space r1 else
      match r1 with
      | [] => l
      | c2 :: r2 =>
          if is_space2 c1 c2 then drop_space r2 else
          match r2 with
          | [] => l
          | c3 :: r3 => if is_space3 c1 c2 c3 then drop_space r3 else l
          end
      end
  end.

(** [l] cut at its first position from which only white space follows (in
    a UTF-8 string a continuation byte starts no white space, so that
    position is the start of a code point). *)
Fixpoint trim_end (l : list ascii) : list ascii :=
  match l with
  | [] => []
  | c :: r => match drop_space l with [] => [] | _ => c :: trim_end r end
  end.

(** [s.trim()] *)
Definition trim (s : string) : string :=
  string_of_list_ascii (trim_end (drop_space (list_ascii_of_string s))).

(** [s.includes(sub)] *)
Definition includes (s sub : string) : bool :=
  match String.index 0 sub s with Some _ => true | None => false end.

Definition is_digit (c : ascii) : bool :=
  let n := nat_of_ascii c in (48 <=? n)%nat && (n <=? 57)%nat.

Definition hex_digit (n : nat) : ascii :=
  ascii_of_nat (if (n <? 10)%nat then 48 + n else 55 + n).

Definition uri_unreserved (c : ascii) : bool :=
  let n := nat_of_ascii c in
  is_digit c || ((65 <=? n)%nat && (n <=? 90)%nat) || ((97 <=? n)%nat && (n <=? 122)%nat)
  || existsb (Nat.eqb n) [45; 95; 46; 33; 126; 42; 39; 40; 41]%nat.

(** [encodeURIComponent(s)]: percent-encoding of the UTF-8 bytes. *)
Fixpoint encodeURIComponent (s : string) : string :=
  match s with
  | EmptyString => EmptyString
  | String c r =>
      if uri_unreserved c then String c (encodeURIComponent r)
      else let n := nat_of_ascii c in
           String (ascii_of_nat 37)
             (String (hex_digit (n / 16)) (String (hex_digit (n mod 16))
               (encodeURIComponent r)))
  end.

(** The characters of [/^[\d\s+-]+$/]: digits, white space, [+] and [-]. *)
Fixpoint phone_chars (l : list ascii) : bool :=
  match l with
  | [] => true
  | c1 :: r1 =>
      if is_digit c1 || is_space c1 || (nat_of_ascii c1 =? 43)%nat || (nat_of_ascii c1 =? 45)%nat
      then phone_chars r1 else
      match r1 with
      | [] => false
      | c2 :: r2 =>
          if is_space2 c1 c2 then phone_chars r2 else
          match r2 with
          | [] => false
          | c3 :: r3 => is_space3 c1 c2 c3 && phone_chars r3
          end
      end
  end.

(** [/^[\d\s+-]+$/.test(s)] *)
Definition phone_like (s : string) : bool :=
  let l := list_ascii_of_string s in
  negb (List.length l =? 0)%nat && phone_chars l.

(** [s.replace(/\D/g, '')]: digits are single bytes, and no byte of a
    multi-byte code point is a digit. *)
Definition only_digits (s : string) : string :=
  string_of_list_ascii (filter is_digit (list_ascii_of_string s)).

(** The bytes of [l] without its white-space code points. *)
Fixpoint remove_space (l : list ascii) : list ascii :=
  match l with
  | [] => []
  | c1 :: r1 =>
      if is_space c1 then remove_space r1 else
      match r1 with
      | [] => l
      | c2 :: r2 =>
          if is_space2 c1 c2 then remove_space r2 else
          match r2 with
          | [] => c1 :: remove_space r1
          | c3 :: r3 => if is_space3 c1 c2 c3 then remove_space r3 else c1 :: remove_space r1
          end
      end
  end.

(** [s.replace(/\s/g, '')] *)
Definition remove_spaces (s : string) : string :=
  string_of_list_ascii (remove_space (list_ascii_of_string s)).

Definition assoc (a : list (string * string)) (k : string) : option string :=
  option_map snd (find (fun p => String.eqb (fst p) k) a).

(** ** Tool calls *)

(** [SUPPORTED_APPS] of the settings view: [(id, name)]. *)
Definition SUPPORTED_APPS : list (string * string) :=
  [("youtube", "YouTube"); ("chrome", "Google Chrome"); ("spotify", "Spotify");
   ("whatsapp", "WhatsApp"); ("instagram", "Instagram"); ("facebook", "Facebook")].

Definition appSchemeMap : list (string * string) :=
  [("spotify", "spotify://"); ("twitter", "twitter://"); ("instagram", "instagram://");
   ("youtube", "youtube://"); ("whatsapp", "whatsapp://"); ("facebook", "fb://");
   ("slack", "slack://"); ("discord", "discord://"); ("chrome", "googlechrome://")].

Definition webLinkMap : list (string * string) :=
  [("spotify", "https://open.spotify.com"); ("twitter", "https://twitter.com");
   ("instagram", "https://instagram.com"); ("youtube", "https://youtube.com");
   ("whatsapp", "https://web.whatsapp.com"); ("facebook", "https://facebook.com");
   ("slack", "https://app.slack.com"); ("discord", "https://discord.com/app");
   ("chrome", "https://google.com")].

(** A [FunctionCall] of the live API; [fc_args = None] is an absent
    [args] object. *)
Record FunctionCall := mkCall {
  fc_id : string;
  fc_name : string;
  fc_args : option (list (string * string))
}.

(** [const { ... } = fc.args] throws when [fc.args] is [undefined]. *)
Definition args_of (fc : FunctionCall) : M (list (string * string)) :=
  match fc.(fc_args) with Some a => ret a | None => throw end.

Definition window_open (url : string) : M unit := emit (WindowOpen url).

Definition google_search (q : string) : string :=
  "https://www.google.com/search?q=" ++ encodeURIComponent q.

Section Engine_semantics.

(** [isMobile] (user-agent test) and the [appPermissions] prop; an app
    missing from the permission object reads as [undefined], i.e. denied. *)
Variable isMobile : bool.
Variable appPermissions : string -> bool.

(** The body of the [switch (fc.name)] of [handleServerMessage]: the
    cases are tried in order with [===]; it returns
    [(actionDescription, actionResult)]. *)
Definition dispatch (fc : FunctionCall) : M (string * string) :=
  if String.eqb fc.(fc_name) "controlLight" then (
      a <- args_of fc ;;
      let brightness := match assoc a "brightness" with Some b => b | None => "100" end in
      let colorTemperature := match assoc a "colorTemperature" with Some c => c | None => "neutral" end in
      ret ("💡 Light set to " ++ brightness ++ "% brightness with a " ++ colorTemperature
             ++ " temperature. (Simulation)",
           "I have simulated controlling the light as requested. In a real application, this would adjust a smart home device.")
  ) else if String.eqb fc.(fc_name) "setReminder" then (
      a <- args_of fc ;;
      let task := js_str (assoc a "task") in
      window_open ("https://calendar.google.com/calendar/render?action=TEMPLATE&text="
                     ++ encodeURIComponent task) ;;
      ret ("📅 Opening Google Calendar to set reminder: " ++ dq ++ task ++ dq,
           "I'm opening Google Calendar for you to set a reminder about " ++ dq ++ task ++ dq ++ ".")
  ) else if String.eqb fc.(fc_name) "sendMessage" then (
      if negb (appPermissions "whatsapp") then
        ret ("❌ Permission denied for WhatsApp.",
             "I don't have permission to send messages with WhatsApp. You can enable this in the settings.")
      else
        a <- args_of fc ;;
        let recipient := js_str (assoc a "recipient") in
        let msgContent := js_str (assoc a "message") in
        window_open ("https://wa.me/?text=" ++ encodeURIComponent msgContent) ;;
        ret ("💬 Opening WhatsApp for message to " ++ recipient ++ ".",
             "I'm opening WhatsApp so you can send your message.")
  ) else if String.eqb fc.(fc_name) "setAlarm" then (
      a <- args_of fc ;;
      let time := js_str (assoc a "time") in
      let label := assoc a "label" in
      let query := "set an alarm for " ++ time
                     ++ (if truthy label then " called " ++ js_str label else "") in
      window_open (google_search query) ;;
      ret ("🚨 Opening Google to set alarm for " ++ time ++ "...",
           "I've opened a Google search for you to set the alarm.")
  ) else if String.eqb fc.(fc_name) "createCalendarEvent" then (
      a <- args_of fc ;;
      let title := js_str (assoc a "title") in
      let date := js_str (assoc a "date") in
      let eventTime := js_str (assoc a "time") in
      let details := "Date: " ++ date ++ ", Time: " ++ eventTime in
      window_open ("https://calendar.google.com/calendar/render?action=TEMPLATE&text="
                     ++ encodeURIComponent title ++ "&details=" ++ encodeURIComponent details) ;;
      ret ("📅 Opening Google Calendar to create event: " ++ dq ++ title ++ dq ++ "...",
           "I'm opening Google Calendar with the details for " ++ dq ++ title ++ dq ++ " pre-filled for you.")
  ) else if String.eqb fc.(fc_name) "getWeatherForecast" then (
      a <- args_of fc ;;
      let location := js_str (assoc a "location") in
      window_open ("https://www.google.com/search?q=weather+in+" ++ encodeURIComponent location) ;;
      ret ("☀️ Opening Google Weather for " ++ location ++ ".",
           "I have opened Google's weather forecast for " ++ location ++ " in a new tab.")
  ) else if String.eqb fc.(fc_name) "getDirections" then (
      a <- args_of fc ;;
      let destination := js_str (assoc a "destination") in
      let startingPoint := assoc a "startingPoint" in
      window_open ("https://www.google.com/maps/dir/"
                     ++ (if truthy startingPoint then encodeURIComponent (js_str startingPoint) else "")
                     ++ "/" ++ encodeURIComponent destination) ;;
      ret ("🗺️ Opening Google Maps for directions to " ++ destination ++ ".",
           "I've opened Google Maps with directions to " ++ destination ++ ".")
  ) else if String.eqb fc.(fc_name) "playMusic" then (
      if negb (appPermissions "spotify") then
        ret ("❌ Permission denied for Spotify.",
             "I don't have permission to play music on Spotify. You can enable this in the settings.")
      else
        a <- args_of fc ;;
        let artist := assoc a "artist" in
        let song := assoc a "song" in
        let playlist := assoc a "playlist" in
        let query := trim ((if truthy song then js_str song ++ " " else "")
                           ++ (if truthy artist then js_str artist ++ " " else "")
                           ++ (if truthy playlist then "playlist " ++ js_str playlist ++ " " else "")) in
        if String.eqb query "" then
          window_open "https://open.spotify.com" ;;
          ret ("🎵 Opening Spotify.", "Opening Spotify for you.")
        else
          window_open ("https://open.spotify.com/search/" ++ encodeURIComponent query) ;;
          ret ("🎵 Searching Spotify for " ++ dq ++ query ++ dq ++ ".",
               "Searching for " ++ dq ++ query ++ dq ++ " on Spotify.")
  ) else if String.eqb fc.(fc_name) "addToList" then (
      a <- args_of fc ;;
      let listName := js_str (assoc a "listName") in
      let item := js_str (assoc a "item") in
      ret ("📝 Added " ++ dq ++ item ++ dq ++ " to your " ++ listName ++ " list. (Simulation)",
           "I've noted to add " ++ dq ++ item ++ dq ++ " to your " ++ listName
             ++ " list. In a full app, this would sync with a to-do list service.")
  ) else if String.eqb fc.(fc_name) "translateText" then (
      a <- args_of fc ;;
      let text := js_str (assoc a "text") in
      let targetLanguage := js_str (assoc a "targetLanguage") in
      window_open ("https://translate.google.com/?sl=auto&tl=" ++ encodeURIComponent targetLanguage
                     ++ "&text=" ++ encodeURIComponent text ++ "&op=translate") ;;
      ret ("🌐 Opening Google Translate for " ++ dq ++ text ++ dq ++ " to " ++ targetLanguage ++ ".",
           "I'm opening Google Translate with your text ready to be translated.")
  ) else if String.eqb fc.(fc_name) "launchApp" then (
      a <- args_of fc ;;
      match assoc a "appName" with
      | None => throw  (* (undefined).toLowerCase(): TypeError *)
      | Some appName =>
          let lowerCaseAppName := trim (toLowerCase appName) in
          let targetApp := find (fun app => includes lowerCaseAppName (fst app)) SUPPORTED_APPS in
          match targetApp with
          | Some (id, name) =>
              if appPermissions id then
                let desc := "🚀 Launching " ++ name ++ "..." in
                if isMobile then
                  let urlScheme := match assoc appSchemeMap id with
                                   | Some u => u
                                   | None => remove_spaces id ++ "://"
                                   end in
                  _ <- setTimeout 500 (NavigateTo urlScheme) ;;
                  ret (desc, "Attempting to open " ++ name ++ ".")
                else
                  match assoc webLinkMap id with
                  | Some webLink =>
                      window_open webLink ;;
                      ret (desc, "Opened " ++ name ++ " in a new browser tab.")
                  | None =>
                      ret ("❌ Opening " ++ dq ++ name ++ dq ++ " is not configured for this device.",
                           "I can't open " ++ dq ++ name ++ dq ++ " on a desktop or tablet.")
                  end
              else
                ret ("❌ Permission denied for " ++ name ++ ".",
                     "I don't have permission to launch " ++ name ++ ". You can enable this in the settings.")
          | None =>
              ret ("❌ Permission denied for " ++ appName ++ ".",
                   "I don't have permission to launch " ++ appName ++ ". You can enable this in the settings.")
          end
      end
  ) else if String.eqb fc.(fc_name) "makeCall" then (
      a <- args_of fc ;;
      let contact := assoc a "contact" in
      if isMobile then
        if phone_like (js_str contact) then
          let phoneNumber := only_digits (js_str contact) in
          _ <- setTimeout 500 (NavigateTo ("tel:" ++ phoneNumber)) ;;
          ret ("📞 Calling " ++ js_str contact ++ "...", "Calling " ++ js_str contact ++ ".")
        else
          ret ("❌ Could not call " ++ js_str contact ++ ". Please provide a valid phone number.",
               "I can only call phone numbers directly. Please provide a full number.")
      else
        ret ("❌ Calling is only available on mobile devices.",
             "I cannot make phone calls from this device.")
  ) else if String.eqb fc.(fc_name) "setTimer" then (
      a <- args_of fc ;;
      let duration := js_str (assoc a "duration") in
      let timerLabel := assoc a "label" in
      let query := "set a timer for " ++ duration
                     ++ (if truthy timerLabel then " called " ++ js_str timerLabel else "") in
      window_open (google_search query) ;;
      ret ("⏳ Opening Google to set timer for " ++ duration ++ ".",
           "I have opened a Google search for you to start the timer.")
  ) else if String.eqb fc.(fc_name) "getCalendarEvents" then (
      a <- args_of fc ;;
      let eventDate := match assoc a "date" with Some d => d | None => "today" end in
      window_open "https://calendar.google.com/" ;;
      ret ("🗓️ Opening Google Calendar to view events for " ++ eventDate ++ ".",
           "I can't view your calendar events directly for security reasons, but I have opened Google Calendar for you to check.")
  ) else if String.eqb fc.(fc_name) "playVideo" then (
      a <- args_of fc ;;
      let videoTitle := js_str (assoc a "title") in
      let platform := assoc a "platform" in
      let lowerCasePlatform := toLowerCase (if truthy platform then js_str platform else "youtube") in
      if includes lowerCasePlatform "youtube" then
        if negb (appPermissions "youtube") then
          ret ("❌ Permission denied for YouTube.",
               "I don't have permission to play videos on YouTube. You can enable this in the settings.")
        else
          window_open ("https://www.youtube.com/results?search_query=" ++ encodeURIComponent videoTitle) ;;
          ret ("🎬 Searching YouTube for " ++ dq ++ videoTitle ++ dq ++ ".",
               "Searching for " ++ dq ++ videoTitle ++ dq ++ " on YouTube.")
      else
        (* console.log only *)
        ret ("🎬 Playing " ++ dq ++ videoTitle ++ dq
               ++ (if truthy platform then " on " ++ js_str platform else "") ++ ". (simulation)",
             "I can't play videos from " ++ js_str platform ++ " yet, but I've noted your request.")
  ) else if String.eqb fc.(fc_name) "controlDeviceSettings" then (
      a <- args_of fc ;;
      let setting := js_str (assoc a "setting") in
      let value := js_str (assoc a "value") in
      ret ("⚙️ Setting " ++ setting ++ " to " ++ value ++ ". (Simulation)",
           "I cannot change device settings from a web browser. This action is simulated.")
  ) else (
      ret ("❓ Unknown action attempted: " ++ fc.(fc_name), "error: unknown function")
  ).

(** [setSystemActions(prev => [actionDescription, ...prev].slice(0, 5))] *)
Definition push_action (d : string) (prev : list string) : list string :=
  firstn 5 (d :: prev).

(** [for (const fc of message.toolCall.functionCalls) { ... }] *)
Fixpoint handle_calls (fcs : list FunctionCall) : M unit :=
  match fcs with
  | [] => ret tt
  | fc :: rest =>
      r <- dispatch fc ;;
      modify (fun e => set_systemActions (push_action (fst r) e.(systemActions)) e) ;;
      e <- get ;;
      (* sessionPromiseRef.current?.then(session => session.sendToolResponse(...)) *)
      (if e.(session) then emit (SendToolResponse fc.(fc_id) fc.(fc_name) (snd r)) else ret tt) ;;
      handle_calls rest
  end.

(** [if (transitionToListeningTimeoutRef.current) clearTimeout(...)]: timer
    ids are positive, so a set ref is truthy. *)
Definition clear_drain_timer : M unit :=
  e <- get ;;
  match e.(timeoutRef) with Some id => clearTimeout id | None => ret tt end.

(** [if (ref.current) { clearTimeout(ref.current); ref.current = null; }],
    shared by the interrupt branch and [stopConversation]. *)
Definition cancel_drain_timer : M unit :=
  e <- get ;;
  match e.(timeoutRef) with
  | Some id => clearTimeout id ;; modify (set_timeoutRef None)
  | None => ret tt
  end.

(** The [turnComplete] branch; [now] is [outputCtx.currentTime]. *)
Definition on_turn_complete (now : Q) : M unit :=
  clear_drain_timer ;;
  e <- get ;;
  if e.(outputCtx) && Qlt_bool now e.(nextStartTime) then
    let remainingPlaybackTime := Math_max 0 (e.(nextStartTime) - now) in
    let timeoutDuration := remainingPlaybackTime * 1000 + 200 in
    id <- setTimeout timeoutDuration DrainToListening ;;
    modify (set_timeoutRef (Some id))
  else setState Listening.

Fixpoint forEach {A} (l : list A) (f : A -> M unit) : M unit :=
  match l with [] => ret tt | x :: r => f x ;; forEach r f end.

(** [outputSourcesRef.current.forEach(source => source.stop());
     outputSourcesRef.current.clear()] *)
Definition stop_all_sources : M unit :=
  e <- get ;;
  forEach e.(outputSources) (fun s => emit (StopSource s)) ;;
  modify (set_outputSources []).

(** Modelled from the spec: [decodeAudioData] of [utils/audio] (not in the
    sources) yields a mono buffer at 24000 Hz; its duration is the number of
    16-bit frames of the inline data over the sample rate.  Its promise is
    taken to settle before the next inbound message is handled. *)
Definition decoded_duration (frames : nat) : Q := inject_Z (Z.of_nat frames) / 24000.

(** The inline-audio branch of [handleServerMessage]; [frames] is the
    length of a non-empty [inlineData.data]. *)
Definition on_audio (now : Q) (frames : nat) : M unit :=
  e <- get ;;
  if e.(outputCtx) then
    modify (fun e => set_nextStartTime (Math_max e.(nextStartTime) now) e) ;;
    let duration := decoded_duration frames in
    e <- get ;;
    let source := mkSource e.(freshId) e.(nextStartTime) duration in
    modify (set_freshId (S e.(freshId))) ;;
    emit (StartSource source) ;;
    modify (fun e => set_nextStartTime (e.(nextStartTime) + duration) e) ;;
    modify (fun e => set_outputSources (app e.(outputSources) [source]) e)
  else ret tt.

(** The [interrupted] branch. *)
Definition on_interrupted : M unit :=
  cancel_drain_timer ;;
  stop_all_sources ;;
  modify (set_nextStartTime 0) ;;
  setState Listening.

(** The fields of a [LiveServerMessage] the engine reads.  Transcription
    texts only feed the on-screen transcript and are not modelled beyond
    the state change of [outputTranscription]. *)
Record Message := mkMessage {
  outputTranscription : bool;
  turnComplete : bool;
  toolCall : option (list FunctionCall);
  audio : option nat;
  interrupted : bool
}.

Definition handleServerMessage (now : Q) (m : Message) : M unit :=
  (if m.(outputTranscription) then setState Speaking else ret tt) ;;
  (if m.(turnComplete) then on_turn_complete now else ret tt) ;;
  (match m.(toolCall) with Some fcs => handle_calls fcs | None => ret tt end) ;;
  (match m.(audio) with Some frames => on_audio now frames | None => ret tt end) ;;
  (if m.(interrupted) then on_interrupted else ret tt).

(** [new AudioContext(...)]: one more open context. *)
Definition new_AudioContext : M unit :=
  modify (fun e => set_openAudioContexts (S e.(openAudioContexts)) e).

(** [ref.current?.close()] on a set ref: the context it holds is closed. *)
Definition close_AudioContext (x : Effect) : M unit :=
  emit x ;; modify (fun e => set_openAudioContexts (pred e.(openAudioContexts)) e).

Definition stopConversation : M unit :=
  cancel_drain_timer ;;
  e <- get ;;
  (if e.(session) then emit CloseSession else ret tt) ;;
  modify (set_session false) ;;
  e <- get ;;
  (if e.(mediaStream) then emit StopTracks else ret tt) ;;
  modify (set_mediaStream false) ;;
  (* scriptProcessor and media-stream source disconnected *)
  modify (set_capture false) ;;
  e <- get ;;
  (if e.(inputCtx) then close_AudioContext CloseInputCtx else ret tt) ;;
  modify (set_inputCtx false) ;;
  stop_all_sources ;;
  e <- get ;;
  (if e.(outputCtx) then close_AudioContext CloseOutputCtx else ret tt) ;;
  modify (set_outputCtx false) ;;
  setState Idle ;;
  modify (set_systemActions []).

(** [startConversation] up to [await getUserMedia]: a new output context
    is created and stored in the ref, whatever the ref held before. *)
Definition startConversation_begin : M unit :=
  setState Connecting ;;
  modify (set_systemActions []) ;;
  new_AudioContext ;;
  modify (set_outputCtx true) ;;
  modify (set_startPending true).

(** [startConversation] after [getUserMedia] resolves: the stream, the input
    context and the session request ([ai.live.connect]). *)
Definition startConversation_resume : M unit :=
  modify (set_startPending false) ;;
  modify (set_mediaStream true) ;;
  new_AudioContext ;;
  modify (set_inputCtx true) ;;
  modify (set_session true) ;;
  modify (set_openPending true).

(** The [catch] of [startConversation] when [getUserMedia] rejects. *)
Definition startConversation_fail : M unit :=
  modify (set_startPending false) ;;
  setState Idle.

(** [onopen] *)
Definition onopen : M unit :=
  modify (set_openPending false) ;;
  e <- get ;;
  if negb (e.(inputCtx) && e.(mediaStream)) then stopConversation
  else modify (set_capture true) ;; setState Listening.

(** ECMAScript ToInt16: the store into an [Int16Array] truncates toward
    zero and wraps modulo 2^16. *)
Definition ToInt16 (x : Q) : Z :=
  let i := Z.quot (Qnum x) (Zpos (Qden x)) in
  let m := Z.modulo i 65536 in
  if (32768 <=? m)%Z then (m - 65536)%Z else m.

(** [int16[i] = inputData[i] * 32768] for every sample of the frame. *)
Definition to_pcm16 (inputData : list Q) : list Z :=
  map (fun s => ToInt16 (s * 32768)) inputData.

(** [scriptProcessor.onaudioprocess] *)
Definition onaudioprocess (inputData : list Q) : M unit :=
  let int16 := to_pcm16 inputData in
  e <- get ;;
  if e.(session) then emit (SendRealtimeInput int16) else ret tt.

(** A browser timer firing. *)
Definition run_timer (t : Timer) : M unit :=
  modify (fun e => set_timers (filter (fun t' => negb (Nat.eqb t'.(t_id) t.(t_id))) e.(timers)) e) ;;
  match t.(t_cb) with
  | DrainToListening => setState Listening ;; modify (set_timeoutRef None)
  | NavigateTo url => emit (LocationHref url)
  end.

(** A source's [ended] listener: [outputSourcesRef.current.delete(source)]. *)
Definition on_ended (id : nat) : M unit :=
  modify (fun e => set_outputSources (filter (fun s => negb (Nat.eqb s.(src_id) id)) e.(outputSources)) e).

Inductive Event :=
| EvStart                       (* start button / automatic activation *)
| EvMediaGranted                (* getUserMedia resolves *)
| EvMediaDenied                 (* getUserMedia rejects *)
| EvOpen                        (* the session's onopen *)
| EvMessage (now : Q) (m : Message)
| EvCapture (inputData : list Q)
| EvTimerFire (id : nat)
| EvSourceEnded (id : nat)
| EvStop.                       (* stop button, unmount, onerror, onclose *)

Definition exec (c : M unit) (e : Engine) : Engine := fst (c e).

(** One event; [None] when the event cannot occur in [e]. *)
Definition step (ev : Event) (e : Engine) : option Engine :=
  match ev with
  | EvStart => if AssistantState_eqb e.(state) Idle then Some (exec startConversation_begin e) else None
  | EvMediaGranted => if e.(startPending) then Some (exec startConversation_resume e) else None
  | EvMediaDenied => if e.(startPending) then Some (exec startConversation_fail e) else None
  | EvOpen => if e.(openPending) then Some (exec onopen e) else None
  | EvMessage now m =>
      if e.(session) && negb e.(openPending) then Some (exec (handleServerMessage now m) e) else None
  | EvCapture d => if e.(capture) then Some (exec (onaudioprocess d) e) else None
  | EvTimerFire id =>
      match find (fun t => Nat.eqb t.(t_id) id) e.(timers) with
      | Some t => Some (exec (run_timer t) e)
      | None => None
      end
  | EvSourceEnded id => Some (exec (on_ended id) e)
  | EvStop => Some (exec stopConversation e)
  end.

Fixpoint run (evs : list Event) (e : Engine) : option Engine :=
  match evs with
  | [] => Some e
  | ev :: rest => match step ev e with Some e' => run rest e' | None => None end
  end.

Definition reachable (e : Engine) : Prop := exists evs, run evs initEngine = Some e.

End Engine_semantics.

(** ** Notions used by the statements *)

(** Handling inbound messages one after another. *)
Fixpoint feed (isMobile : bool) (perms : string -> bool) (evs : list (Q * Message)) (e : Engine) : Engine :=
  match evs with
  | [] => e
  | (now, m) :: rest => feed isMobile perms rest (exec (handleServerMessage isMobile perms now m) e)
  end.

(** The playback sources started, in order. *)
Fixpoint started (fx : list Effect) : list Source :=
  match fx with
  | [] => []
  | StartSource s :: r => s :: started r
  | _ :: r => started r
  end.

(** The tool responses sent, as [(id, name)], in order. *)
Fixpoint tool_responses (fx : list Effect) : list (string * string) :=
  match fx with
  | [] => []
  | SendToolResponse id name _ :: r => (id, name) :: tool_responses r
  | _ :: r => tool_responses r
  end.

(** An inbound audio delta: a [serverContent] message carrying inline
    audio.  The live protocol sends [toolCall] and [serverContent] in
    distinct messages. *)
Definition audio_delta (m : Message) : Prop :=
  m.(toolCall) = None /\ m.(interrupted) = false /\ exists frames, m.(audio) = Some frames.

(** [sched_ok cursor evs S]: the [k]-th started source starts at
    [Math.max(cursor, now)] for the cursor left by the previous one. *)
Fixpoint sched_ok (cursor : Q) (evs : list (Q * Message)) (S : list Source) : Prop :=
  match evs, S with
  | [], [] => True
  | (now, _) :: evs', s :: S' =>
      s.(src_start) = Math_max cursor now /\ sched_ok (s.(src_start) + s.(src_dur)) evs' S'
  | _, _ => False
  end.

(** Every pending drain timer is the one held by
    [transitionToListeningTimeoutRef]. *)
Definition drain_ok (e : Engine) : Prop :=
  forall t, In t e.(timers) -> t.(t_cb) = DrainToListening -> e.(timeoutRef) = Some t.(t_id).

Definition no_drain_timer (e : Engine) : Prop :=
  forall t, In t e.(timers) -> t.(t_cb) <> DrainToListening.

(** [dispatch_frame e e']: [e'] differs from [e] only by new navigation
    timers, new [window.open] effects and the handle counter. *)
Definition dispatch_frame (e e' : Engine) : Prop :=
  exists ts fx n,
    e' = mkEngine e.(state) e.(session) e.(mediaStream) e.(inputCtx) e.(outputCtx) e.(capture)
           e.(startPending) e.(openPending) e.(nextStartTime) e.(outputSources) e.(timeoutRef)
           (e.(timers) ++ ts) n e.(systemActions) (e.(effects) ++ fx) e.(openAudioContexts)
    /\ Forall (fun t => exists u, t.(t_cb) = NavigateTo u) ts
    /\ Forall (fun x => exists u, x = WindowOpen u) fx.

Definition frame_only {A} (c : M A) : Prop := forall e, dispatch_frame e (fst (c e)).

Definition preserves (P : Engine -> Prop) {A} (c : M A) : Prop := forall e, P e -> P (fst (c e)).

(** A computation that never throws. *)
Definition nothrow {A} (c : M A) : Prop := forall e, snd (c e) <> None.

(** The conversion the specification describes:
    [round(sample * 32768)] clamped to the 16-bit signed range. *)
Definition claimed_pcm16 (sample : Q) : Z :=
  let r := Qfloor (sample * 32768 + (1 # 2)) in
  Z.max (-32768) (Z.min 32767 r).

(** The engine after a run of events from the initial one ([initEngine]
    when the run is refused). *)
Definition run_or_init (isMobile : bool) (perms : string -> bool) (evs : list Event) : Engine :=
  match run isMobile perms evs initEngine with Some e => e | None => initEngine end.

(** Start, microphone granted, session opened. *)
Definition session_open : list Event := [EvStart; EvMediaGranted; EvOpen].

(** An inbound message carrying [f] frames of inline audio and nothing else. *)
Definition audio_msg (f : nat) : Message := mkMessage false false None (Some f) false.

(** A session opened with every permission granted, on desktop. *)
Definition opened_engine : Engine := run_or_init false (fun _ => true) session_open.

(** The same session with 0.1 s of model audio queued at time 0. *)
Definition playing_engine : Engine :=
  run_or_init false (fun _ => true) (session_open ++ [EvMessage 0 (audio_msg 2400)])%list.

(** A batch whose first call lacks [appName]. *)
Definition throwing_batch : list FunctionCall :=
  [mkCall "call-1" "launchApp" (Some []);
   mkCall "call-2" "controlLight" (Some [("device", "lamp"); ("state", "on")])].

(** [post P c]: every value [c] returns satisfies [P]. *)
Definition post {A} (P : A -> Prop) (c : M A) : Prop :=
  forall e, match snd (c e) with Some a => P a | None => True end.

(** A missing, empty or all-blank optional argument. *)
Definition whitespace_only (v : option string) : bool :=
  match v with
  | Some s => match drop_space (list_ascii_of_string s) with [] => true | _ => false end
  | None => true
  end.

(** ** The function declarations of the session

    A [FunctionDeclaration] of [config.tools]: its name and its
    [parameters.required] list (the types and descriptions of the schema are
    for the model only). *)
Record FunctionDeclaration := mkDecl { fd_name : string; fd_required : list string }.

Definition controlLightFunctionDeclaration := mkDecl "controlLight" ["brightness"; "colorTemperature"].
Definition setReminderFunctionDeclaration := mkDecl "setReminder" ["task"].
Definition sendMessageFunctionDeclaration := mkDecl "sendMessage" ["recipient"; "message"].
Definition setAlarmFunctionDeclaration := mkDecl "setAlarm" ["time"].
Definition createCalendarEventFunctionDeclaration := mkDecl "createCalendarEvent" ["title"; "date"; "time"].
Definition getWeatherForecastFunctionDeclaration := mkDecl "getWeatherForecast" ["location"].
Definition getDirectionsFunctionDeclaration := mkDecl "getDirections" ["destination"].
Definition playMusicFunctionDeclaration := mkDecl "playMusic" [].
Definition addToListFunctionDeclaration := mkDecl "addToList" ["listName"; "item"].
Definition translateTextFunctionDeclaration := mkDecl "translateText" ["text"; "targetLanguage"].
Definition launchAppFunctionDeclaration := mkDecl "launchApp" ["appName"].
Definition makeCallFunctionDeclaration := mkDecl "makeCall" ["contact"].
Definition setTimerFunctionDeclaration := mkDecl "setTimer" ["duration"].
Definition getCalendarEventsFunctionDeclaration := mkDecl "getCalendarEvents" [].
Definition playVideoFunctionDeclaration := mkDecl "playVideo" [].
Definition controlDeviceSettingsFunctionDeclaration := mkDecl "controlDeviceSettings" ["setting"; "value"].

(** [functionDeclarations] of the [ai.live.connect] config, in order. *)
Definition functionDeclarations : list FunctionDeclaration :=
  [controlLightFunctionDeclaration; setReminderFunctionDeclaration;
   sendMessageFunctionDeclaration; setAlarmFunctionDeclaration;
   createCalendarEventFunctionDeclaration; getWeatherForecastFunctionDeclaration;
   getDirectionsFunctionDeclaration; playMusicFunctionDeclaration;
   addToListFunctionDeclaration; translateTextFunctionDeclaration;
   launchAppFunctionDeclaration; makeCallFunctionDeclaration;
   setTimerFunctionDeclaration; getCalendarEventsFunctionDeclaration;
   playVideoFunctionDeclaration; controlDeviceSettingsFunctionDeclaration].

(** ** App permissions

    The [appPermissions] the app starts with ([initialPermissions]): [true]
    for every id of [SUPPORTED_APPS]; any other key is [undefined]. *)
Definition initialPermissions (k : string) : bool :=
  existsb (fun app => String.eqb (fst app) k) SUPPORTED_APPS.

(** [handleToggle(appId)] of the settings view:
    [{...appPermissions, [appId]: !appPermissions[appId]}]. *)
Definition handleToggle (appPermissions : string -> bool) (appId : string) : string -> bool :=
  fun k => if String.eqb k appId then negb (appPermissions appId) else appPermissions k.

(** ** The on-screen transcript *)

Module Transcript.

(** [message.serverContent] as the transcript code reads it: an absent
    [inputTranscription] or [outputTranscription] is [None]; a present one
    is [Some text], with [text = None] when its [text] is [undefined]. *)
Record ServerContent := mkServerContent {
  inputTranscription : option (option string);
  outputTranscription : option (option string);
  turnComplete : bool
}.

Record Transcription := mkTranscription { user : string; model : string }.

(** [{ user: '', model: '' }] *)
Definition empty : Transcription := mkTranscription "" "".

(** The [setTranscription] updates of [handleServerMessage], applied in
    the order React queues them. *)
Definition handleTranscription (prev : Transcription) (m : ServerContent) : Transcription :=
  let t1 := match m.(inputTranscription) with
            | Some text => mkTranscription (prev.(user) ++ js_str text) prev.(model)
            | None => prev
            end in
  let t2 := match m.(outputTranscription) with
            | Some text => mkTranscription t1.(user) (t1.(model) ++ js_str text)
            | None => t1
            end in
  if m.(turnComplete) then empty else t2.

Fixpoint feedTranscription (t : Transcription) (ms : list ServerContent) : Transcription :=
  match ms with
  | [] => t
  | m :: rest => feedTranscription (handleTranscription t m) rest
  end.

(** The text a message adds to one side of the transcript. *)
Definition delta (d : option (option string)) : string :=
  match d with Some text => js_str text | None => "" end.

End Transcript.

(** ** Activation and the main button *)

(** [activationMode]: ['push-to-talk' | 'automatic']; the view only tests
    [activationMode === 'automatic']. *)
Inductive ActivationMode := PushToTalk | Automatic.

Definition is_automatic (m : ActivationMode) : bool :=
  match m with Automatic => true | PushToTalk => false end.

(** The automatic-activation effect, run with [triedAutoStartRef.current]
    and the [error] state: the new value of the ref, and whether it calls
    [startConversation]. *)
Definition autoStartEffect (activationMode : ActivationMode) (st : AssistantState)
    (triedAutoStart : bool) (error : option string) : bool * bool :=
  if is_automatic activationMode && AssistantState_eqb st Idle
     && negb triedAutoStart && negb (truthy error)
  then (true, true) else (triedAutoStart, false).

(** Runs of the effect during one mount of the view, over the
    [(activationMode, state, error)] values it sees: the number of
    [startConversation] calls.  [activationMode] is a prop that the settings
    overlay changes while the view stays mounted; [triedAutoStartRef] lives
    as long as the mount. *)
Fixpoint autoStartRuns (triedAutoStart : bool)
    (obs : list (ActivationMode * AssistantState * option string)) : nat :=
  match obs with
  | [] => 0
  | (activationMode, st, error) :: rest =>
      let (tried', started) := autoStartEffect activationMode st triedAutoStart error in
      ((if started then 1 else 0) + autoStartRuns tried' rest)%nat
  end.

(** The [action] of the main button. *)
Inductive ButtonAction := NoAction | StartAction | StopAction.

Record ButtonState := mkButtonState {
  text : string; icon : string; action : ButtonAction; disabled : bool
}.

(** [getButtonState()]; the [default] case of its [switch] is unreachable,
    the state type having four values. *)
Definition getButtonState (activationMode : ActivationMode) (st : AssistantState)
    (error : option string) : ButtonState :=
  if is_automatic activationMode && AssistantState_eqb st Idle && negb (truthy error) then
    mkButtonState "Activating..." "loader" NoAction true
  else
    match st with
    | Idle => mkButtonState "Start Conversation" "mic" StartAction false
    | Connecting => mkButtonState "Connecting..." "loader" NoAction true
    | Listening => mkButtonState "Listening..." "stop" StopAction false
    | Speaking => mkButtonState "AI is Speaking..." "stop" StopAction false
    end.

(** Timer handles are distinct and below the next fresh handle. *)
Definition timer_ids_ok (e : Engine) : Prop :=
  NoDup (map t_id e.(timers)) /\ Forall (fun t => t.(t_id) < e.(freshId))%nat e.(timers).

(** From here on [++] is list concatenation; string concatenation is
    written [(_ ++ _)%string]. *)
Open Scope list_scope.

(** ** Arithmetic of the cursor *)

Lemma Math_max_ge_l (a b : Q) : a <= Math_max a b.
Proof.
  unfold Math_max; destruct (Qle_bool a b) eqn:E.
  - now apply Qle_bool_iff.
  - apply Qle_refl.
Qed.

Lemma Math_max_ge_r (a b : Q) : b <= Math_max a b.
Proof.
  unfold Math_max; destruct (Qle_bool a b) eqn:E.
  - apply Qle_refl.
  - apply Qlt_le_weak, Qnot_le_lt; intro H; apply Qle_bool_iff in H; congruence.
Qed.

Lemma Math_max_left (a b : Q) : b <= a -> Math_max a b == a.
Proof.
  intro H; unfold Math_max; destruct (Qle_bool a b) eqn:E.
  - apply Qle_bool_iff in E; apply Qle_antisym; assumption.
  - reflexivity.
Qed.

Lemma decoded_duration_nonneg (f : nat) : 0 <= decoded_duration f.
Proof.
  unfold decoded_duration, Qdiv; apply Qmult_le_0_compat.
  - unfold Qle; simpl; lia.
  - unfold Qle; simpl; lia.
Qed.

Lemma started_app (l1 l2 : list Effect) : started (l1 ++ l2) = started l1 ++ started l2.
Proof.
  induction l1 as [|x l1 IH]; [reflexivity|].
  destruct x; simpl; rewrite ?IH; reflexivity.
Qed.

Lemma tool_responses_app (l1 l2 : list Effect) :
  tool_responses (l1 ++ l2) = tool_responses l1 ++ tool_responses l2.
Proof.
  induction l1 as [|x l1 IH]; [reflexivity|].
  destruct x; simpl; rewrite ?IH; reflexivity.
Qed.

(** ** The playback scheduler *)

Section Scheduler.
Variable isMobile : bool.
Variable perms : string -> bool.

Lemma exec_seq (m : M unit) (k : M unit) (e : Engine) :
  snd (m e) = Some tt -> exec (m ;; k) e = exec k (exec m e).
Proof.
  intro H; unfold exec, bind; destruct (m e) as [e' r]; cbn in H; subst; reflexivity.
Qed.

Lemma on_turn_complete_total (now : Q) (e : Engine) : snd (on_turn_complete now e) = Some tt.
Proof.
  destruct e; unfold on_turn_complete, clear_drain_timer; cbn.
  destruct timeoutRef0; cbn; destruct (outputCtx0 && Qlt_bool now nextStartTime0); reflexivity.
Qed.

Lemma on_audio_total (now : Q) (f : nat) (e : Engine) : snd (on_audio now f e) = Some tt.
Proof. destruct e as [? ? ? ? [|] ? ? ? ? ? ? ? ? ? ? ?]; reflexivity. Qed.

Lemma turn_complete_keeps_playback (now : Q) (e : Engine) :
  let e' := exec (on_turn_complete now) e in
  e'.(effects) = e.(effects) /\ e'.(nextStartTime) = e.(nextStartTime)
  /\ e'.(outputCtx) = e.(outputCtx) /\ e'.(outputSources) = e.(outputSources).
Proof.
  destruct e; unfold exec, on_turn_complete, clear_drain_timer; cbn.
  destruct timeoutRef0; cbn;
    destruct (outputCtx0 && Qlt_bool now nextStartTime0); cbn; auto.
Qed.

(** A message without tool calls runs its branches in sequence. *)
Lemma handle_no_tool_call (now : Q) (m : Message) (e : Engine) :
  m.(toolCall) = None ->
  exec (handleServerMessage isMobile perms now m) e
  = exec (if m.(interrupted) then on_interrupted else ret tt)
      (exec (match m.(audio) with Some frames => on_audio now frames | None => ret tt end)
        (exec (if m.(turnComplete) then on_turn_complete now else ret tt)
          (exec (if m.(outputTranscription) then setState Speaking else ret tt) e))).
Proof.
  intro Ht; unfold handleServerMessage; rewrite Ht.
  rewrite exec_seq by (destruct (outputTranscription m); reflexivity).
  rewrite exec_seq by (destruct (turnComplete m); [apply on_turn_complete_total | reflexivity]).
  rewrite exec_seq by reflexivity.
  rewrite exec_seq by (destruct (audio m); [apply on_audio_total | reflexivity]).
  reflexivity.
Qed.

Lemma audio_delta_step (now : Q) (m : Message) (e : Engine) :
  e.(outputCtx) = true -> audio_delta m ->
  exists s f,
    let e' := exec (handleServerMessage isMobile perms now m) e in
    m.(audio) = Some f
    /\ e'.(effects) = e.(effects) ++ [StartSource s]
    /\ s.(src_start) = Math_max e.(nextStartTime) now
    /\ s.(src_dur) = decoded_duration f
    /\ e'.(nextStartTime) = s.(src_start) + s.(src_dur)
    /\ e'.(outputCtx) = true.
Proof.
  intros Hctx [Ht [Hi [f Ha]]].
  cbv zeta; rewrite (handle_no_tool_call now m e Ht), Hi, Ha.
  set (e1 := exec (if outputTranscription m then setState Speaking else ret tt) e).
  assert (H1 : e1.(effects) = e.(effects) /\ e1.(nextStartTime) = e.(nextStartTime)
               /\ e1.(outputCtx) = e.(outputCtx))
    by (subst e1; destruct (outputTranscription m); cbn; auto).
  set (e2 := exec (if turnComplete m then on_turn_complete now else ret tt) e1).
  assert (H2 : e2.(effects) = e.(effects) /\ e2.(nextStartTime) = e.(nextStartTime)
               /\ e2.(outputCtx) = true).
  { subst e2; destruct (turnComplete m).
    - destruct (turn_complete_keeps_playback now e1) as (A & B & C & _).
      cbv zeta in A, B, C; rewrite A, B, C; intuition congruence.
    - cbn; intuition congruence. }
  exists (mkSource e2.(freshId) (Math_max e.(nextStartTime) now) (decoded_duration f)), f.
  destruct H2 as (A & B & C).
  destruct e2; cbn in A, B, C |- *; subst.
  repeat split; reflexivity.
Qed.

Lemma feed_audio (evs : list (Q * Message)) :
  forall e, e.(outputCtx) = true -> Forall (fun p => audio_delta (snd p)) evs ->
  exists srcs,
    started (feed isMobile perms evs e).(effects) = started e.(effects) ++ srcs
    /\ sched_ok e.(nextStartTime) evs srcs
    /\ Forall2 (fun p s => exists f, (snd p).(audio) = Some f /\ s.(src_dur) = decoded_duration f)
         evs srcs.
Proof.
  induction evs as [|[now m] rest IH]; intros e Hctx Hall.
  - exists []; cbn; rewrite app_nil_r; auto.
  - inversion Hall as [|? ? Hm Hrest]; subst; cbn in Hm.
    destruct (audio_delta_step now m e Hctx Hm) as (s & f & Ha & Hfx & Hst & Hd & Hns & Hctx').
    destruct (IH _ Hctx' Hrest) as (srcs & Hs & Hok & Hdur).
    exists (s :: srcs); cbn; repeat split.
    + rewrite Hs, Hfx, started_app; cbn; rewrite <- app_assoc; reflexivity.
    + exact Hst.
    + rewrite <- Hns; exact Hok.
    + constructor; [exists f; cbn; auto | exact Hdur].
Qed.

Lemma sched_ok_consecutive (evs : list (Q * Message)) :
  forall cursor srcs, sched_ok cursor evs srcs ->
  Forall2 (fun p s => exists f, (snd p).(audio) = Some f /\ s.(src_dur) = decoded_duration f) evs srcs ->
  forall k s s' now',
    nth_error srcs k = Some s -> nth_error srcs (S k) = Some s' ->
    nth_error (map fst evs) (S k) = Some now' ->
    s.(src_start) <= s'.(src_start)
    /\ (now' <= s.(src_start) -> s'.(src_start) == s.(src_start) + s.(src_dur)).
Proof.
  induction evs as [|[n0 m0] rest IH]; intros cursor srcs Hok Hd k s s' now' H0 H1 Hn.
  - destruct srcs; [discriminate | contradiction].
  - destruct srcs as [|s0 srcs]; [contradiction|].
    destruct Hok as [_ Hok]; inversion Hd as [|? ? ? ? [f [_ Hf]] Hd']; subst.
    destruct k as [|k].
    + cbn in H0, H1, Hn; injection H0 as <-.
      destruct rest as [|[n1 m1] rest]; [discriminate|].
      destruct srcs as [|s1 srcs]; [discriminate|].
      injection H1 as <-; injection Hn as <-.
      destruct Hok as [Hs1 _]; rewrite Hs1.
      pose proof (decoded_duration_nonneg f) as Hnn; rewrite <- Hf in Hnn.
      split.
      * eapply Qle_trans; [|apply Math_max_ge_l]; lra.
      * intro Hle; apply Math_max_left; lra.
    + exact (IH _ _ Hok Hd' k s s' now' H0 H1 Hn).
Qed.

End Scheduler.

(** ** Claims *)

(** C1.  For every sequence of inbound audio deltas handled while the
    output context is open, the [k]-th decoded buffer is started at
    [Math.max(cursor, now)] and the cursor then advances by its duration;
    so start times never decrease, and buffer [n+1] starts exactly when
    buffer [n] ends whenever [start(n)] is not behind the device clock at
    the time buffer [n+1] is scheduled. *)
Theorem playback_schedule_contiguous (isMobile : bool) (perms : string -> bool)
    (e : Engine) (evs : list (Q * Message)) :
  e.(outputCtx) = true -> Forall (fun p => audio_delta (snd p)) evs ->
  exists srcs,
    started (feed isMobile perms evs e).(effects) = started e.(effects) ++ srcs
    /\ sched_ok e.(nextStartTime) evs srcs
    /\ forall k s s' now',
         nth_error srcs k = Some s -> nth_error srcs (S k) = Some s' ->
         nth_error (map fst evs) (S k) = Some now' ->
         s.(src_start) <= s'.(src_start)
         /\ (now' <= s.(src_start) -> s'.(src_start) == s.(src_start) + s.(src_dur)).
Proof.
  intros Hctx Hall.
  destruct (feed_audio isMobile perms evs e Hctx Hall) as (srcs & Hs & Hok & Hd).
  exists srcs; repeat split; try assumption.
  - intros; eapply sched_ok_consecutive; eassumption.
  - intros; eapply sched_ok_consecutive; eassumption.
Qed.

(** ** What a tool-call handler may touch *)

Lemma frame_refl (e : Engine) : dispatch_frame e e.
Proof.
  exists [], [], e.(freshId); rewrite !app_nil_r; destruct e; repeat split; constructor.
Qed.

Lemma frame_trans (e1 e2 e3 : Engine) :
  dispatch_frame e1 e2 -> dispatch_frame e2 e3 -> dispatch_frame e1 e3.
Proof.
  intros (ts1 & fx1 & n1 & -> & Ht1 & Hf1) (ts2 & fx2 & n2 & -> & Ht2 & Hf2).
  exists (ts1 ++ ts2), (fx1 ++ fx2), n2; cbn; rewrite !app_assoc; repeat split;
    apply Forall_app; auto.
Qed.

Lemma frame_only_ret {A} (a : A) : frame_only (ret a).
Proof. intro e; apply frame_refl. Qed.

Lemma frame_only_throw {A} : frame_only (@throw A).
Proof. intro e; apply frame_refl. Qed.

Lemma frame_only_bind {A B} (m : M A) (k : A -> M B) :
  frame_only m -> (forall a, frame_only (k a)) -> frame_only (bind m k).
Proof.
  intros Hm Hk e; unfold bind.
  specialize (Hm e); destruct (m e) as [e1 [a|]]; cbn in Hm; [|exact Hm].
  eapply frame_trans; [exact Hm | apply Hk].
Qed.

Lemma frame_only_window_open (u : string) : frame_only (window_open u).
Proof.
  intro e; exists [], [WindowOpen u], e.(freshId); rewrite app_nil_r;
    destruct e; repeat split; repeat constructor; eauto.
Qed.

Lemma frame_only_setTimeout_nav (d : Q) (u : string) : frame_only (setTimeout d (NavigateTo u)).
Proof.
  intro e; exists [mkTimer e.(freshId) d (NavigateTo u)], [], (S e.(freshId));
    rewrite app_nil_r; destruct e; split; [reflexivity|].
  split; constructor; [exists u; reflexivity | constructor].
Qed.

Lemma frame_only_args_of (fc : FunctionCall) : frame_only (args_of fc).
Proof. unfold args_of; destruct (fc_args fc); [apply frame_only_ret | apply frame_only_throw]. Qed.

Ltac frame_tac :=
  repeat first
    [ apply frame_only_ret | apply frame_only_throw | apply frame_only_window_open
    | apply frame_only_setTimeout_nav | apply frame_only_args_of
    | apply frame_only_bind; intros
    | progress cbv zeta
    | match goal with
      | |- frame_only (if ?b then _ else _) => destruct b
      | |- frame_only (match ?x with _ => _ end) => destruct x
      end ].

(** A tool-call handler only opens windows, arms navigation timers and
    draws fresh handles; it never throws after a side effect other than
    these. *)
Lemma dispatch_frame_only (isMobile : bool) (perms : string -> bool) (fc : FunctionCall) :
  frame_only (dispatch isMobile perms fc).
Proof. unfold dispatch; frame_tac. Qed.

(** ** The drain-timer invariant *)

Lemma preserves_ret (P : Engine -> Prop) {A} (a : A) : preserves P (ret a).
Proof. intros e H; exact H. Qed.

Lemma preserves_throw (P : Engine -> Prop) {A} : preserves P (@throw A).
Proof. intros e H; exact H. Qed.

Lemma preserves_get (P : Engine -> Prop) : preserves P get.
Proof. intros e H; exact H. Qed.

Lemma preserves_modify (P : Engine -> Prop) (f : Engine -> Engine) :
  (forall e, P e -> P (f e)) -> preserves P (modify f).
Proof. intros Hf e H; exact (Hf e H). Qed.

Lemma preserves_bind (P : Engine -> Prop) {A B} (m : M A) (k : A -> M B) :
  preserves P m -> (forall a, preserves P (k a)) -> preserves P (bind m k).
Proof.
  intros Hm Hk e He; unfold bind.
  specialize (Hm e He); destruct (m e) as [e1 [a|]]; cbn in Hm; [|exact Hm].
  apply Hk; exact Hm.
Qed.

Lemma preserves_forEach (P : Engine -> Prop) {A} (l : list A) (f : A -> M unit) :
  (forall x, preserves P (f x)) -> preserves P (forEach l f).
Proof.
  intro Hf; induction l as [|x l IH]; cbn.
  - apply preserves_ret.
  - apply preserves_bind; [apply Hf | intros; exact IH].
Qed.

Lemma frame_drain_ok (e e' : Engine) : dispatch_frame e e' -> drain_ok e -> drain_ok e'.
Proof.
  intros (ts & fx & n & -> & Hts & _) Hd t Hin Hcb; cbn in Hin |- *.
  apply in_app_or in Hin as [Hin|Hin].
  - exact (Hd t Hin Hcb).
  - rewrite Forall_forall in Hts; destruct (Hts t Hin) as [u Hu]; congruence.
Qed.

Lemma dispatch_drain_ok (isMobile : bool) (perms : string -> bool) (fc : FunctionCall) :
  preserves drain_ok (dispatch isMobile perms fc).
Proof. intros e H; exact (frame_drain_ok _ _ (dispatch_frame_only isMobile perms fc e) H). Qed.

Lemma cancel_drain_timer_spec (e : Engine) :
  drain_ok e ->
  let e' := exec cancel_drain_timer e in
  no_drain_timer e' /\ e'.(timeoutRef) = None
  /\ e' = set_timeoutRef None (set_timers (match e.(timeoutRef) with
                                           | Some id => filter (fun t => negb (Nat.eqb t.(t_id) id)) e.(timers)
                                           | None => e.(timers) end) e).
Proof.
  intro Hd; destruct e as [? ? ? ? ? ? ? ? ? ? ref ts ? ? ? ?]; unfold drain_ok in Hd; cbn in Hd.
  unfold exec, cancel_drain_timer; destruct ref as [id|]; cbn; (split; [|split; reflexivity]).
  - intros t Hin Hcb; apply filter_In in Hin as [Hin Hneq].
    specialize (Hd t Hin Hcb); injection Hd as Heq; subst id; rewrite Nat.eqb_refl in Hneq; discriminate.
  - intros t Hin Hcb; specialize (Hd t Hin Hcb); discriminate.
Qed.

Lemma cancel_drain_timer_drain_ok : preserves drain_ok cancel_drain_timer.
Proof.
  intros e H; destruct (cancel_drain_timer_spec e H) as (Hn & Hr & _).
  intros t Hin Hcb; exfalso; exact (Hn t Hin Hcb).
Qed.

Lemma on_turn_complete_drain_ok (now : Q) : preserves drain_ok (on_turn_complete now).
Proof.
  intros e Hd; unfold on_turn_complete.
  pose proof (cancel_drain_timer_spec e Hd) as (Hn & _).
  destruct e as [? ? ? ? ? ? ? ? ? ? ref ts ? ? ? ?]; unfold drain_ok in Hd; cbn in Hd.
  unfold exec, clear_drain_timer, cancel_drain_timer in *; destruct ref as [id|]; cbn in *;
    destruct (_ && _); cbn; intros t Hin Hcb.
  - apply in_app_or in Hin as [Hin|[<-|[]]]; [exfalso; exact (Hn t Hin Hcb) | reflexivity].
  - exfalso; exact (Hn t Hin Hcb).
  - apply in_app_or in Hin as [Hin|[<-|[]]]; [exfalso; exact (Hn t Hin Hcb) | reflexivity].
  - exact (Hd t Hin Hcb).
Qed.

Ltac pres_tac :=
  repeat first
    [ apply preserves_ret | apply preserves_throw | apply preserves_get
    | apply cancel_drain_timer_drain_ok | apply on_turn_complete_drain_ok
    | apply dispatch_drain_ok
    | apply preserves_modify; intros ?e ?H; exact H
    | apply preserves_forEach; intros
    | apply preserves_bind; intros
    | progress cbv zeta
    | match goal with
      | |- preserves _ (if ?b then _ else _) => destruct b
      | |- preserves _ (match ?x with _ => _ end) => destruct x
      end ].

Lemma handle_calls_drain_ok (isMobile : bool) (perms : string -> bool) (fcs : list FunctionCall) :
  preserves drain_ok (handle_calls isMobile perms fcs).
Proof. induction fcs as [|fc fcs IH]; cbn; pres_tac; exact IH. Qed.

Lemma stopConversation_drain_ok : preserves drain_ok stopConversation.
Proof. unfold stopConversation, stop_all_sources, emit, setState; pres_tac. Qed.

Lemma handleServerMessage_drain_ok (isMobile : bool) (perms : string -> bool) (now : Q) (m : Message) :
  preserves drain_ok (handleServerMessage isMobile perms now m).
Proof.
  unfold handleServerMessage, on_audio, on_interrupted, stop_all_sources, emit, setState.
  destruct (toolCall m); [|pres_tac].
  apply preserves_bind; [pres_tac|intros].
  apply preserves_bind; [pres_tac|intros].
  apply preserves_bind; [apply handle_calls_drain_ok|intros].
  pres_tac.
Qed.

Lemma step_drain_ok (isMobile : bool) (perms : string -> bool) (ev : Event) (e e' : Engine) :
  drain_ok e -> step isMobile perms ev e = Some e' -> drain_ok e'.
Proof.
  intros Hd Hs; destruct ev; unfold step in Hs.
  - destruct (AssistantState_eqb _ _); [injection Hs as <- | discriminate].
    refine (_ e Hd); unfold startConversation_begin, setState; pres_tac.
  - destruct (startPending e); [injection Hs as <- | discriminate].
    refine (_ e Hd); unfold startConversation_resume; pres_tac.
  - destruct (startPending e); [injection Hs as <- | discriminate].
    refine (_ e Hd); unfold startConversation_fail, setState; pres_tac.
  - destruct (openPending e); [injection Hs as <- | discriminate].
    refine (_ e Hd); unfold onopen, setState; pres_tac.
  - destruct (_ && _); [injection Hs as <- | discriminate].
    exact (handleServerMessage_drain_ok isMobile perms now m e Hd).
  - destruct (capture e); [injection Hs as <- | discriminate].
    refine (_ e Hd); unfold onaudioprocess, emit; pres_tac.
  - destruct (find _ _) as [t|] eqn:Hf; [injection Hs as <- | discriminate].
    apply find_some in Hf as [Hin Hid]; apply Nat.eqb_eq in Hid; subst id.
    destruct e as [? ? ? ? ? ? ? ? ? ? ref ts ? ? ? ?]; unfold drain_ok in Hd; cbn in Hd, Hin.
    unfold exec, run_timer; destruct (t_cb t) eqn:Hcb; cbn; intros t' Hin' Hcb'.
    + exfalso; apply filter_In in Hin' as [Hin' Hneq].
      pose proof (Hd t Hin Hcb) as H1; pose proof (Hd t' Hin' Hcb') as H2.
      rewrite H1 in H2; injection H2 as H2; rewrite H2, Nat.eqb_refl in Hneq; discriminate.
    + apply filter_In in Hin' as [Hin' _]; exact (Hd t' Hin' Hcb').
  - injection Hs as <-; refine (_ e Hd); unfold on_ended; pres_tac.
  - injection Hs as <-; exact (stopConversation_drain_ok e Hd).
Qed.

Lemma run_drain_ok (isMobile : bool) (perms : string -> bool) (evs : list Event) :
  forall e e', drain_ok e -> run isMobile perms evs e = Some e' -> drain_ok e'.
Proof.
  induction evs as [|ev evs IH]; intros e e' Hd Hr; cbn in Hr.
  - injection Hr as <-; exact Hd.
  - destruct (step isMobile perms ev e) as [e1|] eqn:Hs; [|discriminate].
    exact (IH e1 e' (step_drain_ok isMobile perms ev e e1 Hd Hs) Hr).
Qed.

Lemma reachable_drain_ok (isMobile : bool) (perms : string -> bool) (e : Engine) :
  reachable isMobile perms e -> drain_ok e.
Proof.
  intros [evs Hr]; refine (run_drain_ok isMobile perms evs initEngine e _ Hr).
  intros t Hin; destruct Hin.
Qed.

(** ** Flushing playback *)

Lemma forEach_stop (l : list Source) (e : Engine) :
  forEach l (fun s => emit (StopSource s)) e
  = (set_effects (e.(effects) ++ map StopSource l) e, Some tt).
Proof.
  revert e; induction l as [|s l IH]; intro e; cbn.
  - destruct e; cbn; rewrite app_nil_r; reflexivity.
  - unfold bind, emit, modify; rewrite IH; destruct e; cbn; rewrite <- app_assoc; reflexivity.
Qed.

Lemma stop_all_sources_spec (e : Engine) :
  stop_all_sources e
  = (set_outputSources [] (set_effects (e.(effects) ++ map StopSource e.(outputSources)) e), Some tt).
Proof.
  unfold stop_all_sources, bind, get; rewrite forEach_stop; reflexivity.
Qed.

Lemma cancel_drain_timer_total (e : Engine) : snd (cancel_drain_timer e) = Some tt.
Proof. destruct e as [? ? ? ? ? ? ? ? ? ? [|] ? ? ? ? ?]; reflexivity. Qed.

Lemma on_interrupted_spec (e : Engine) :
  drain_ok e ->
  let e' := exec on_interrupted e in
  e'.(outputSources) = [] /\ e'.(nextStartTime) = 0 /\ e'.(timeoutRef) = None
  /\ no_drain_timer e' /\ e'.(state) = Listening
  /\ e'.(effects) = e.(effects) ++ map StopSource e.(outputSources).
Proof.
  intro Hd; unfold on_interrupted.
  rewrite exec_seq by apply cancel_drain_timer_total.
  rewrite exec_seq by (rewrite stop_all_sources_spec; reflexivity).
  destruct (cancel_drain_timer_spec e Hd) as (Hn & Hr & He).
  cbv zeta in He; rewrite He in Hn |- *.
  unfold exec; rewrite stop_all_sources_spec.
  destruct e; cbn in *; repeat split; auto.
Qed.

Lemma set_state_sources (s : AssistantState) (e : Engine) :
  (exec (setState s) e).(outputSources) = e.(outputSources).
Proof. reflexivity. Qed.

Lemma on_audio_sources (now : Q) (f : nat) (e : Engine) :
  incl e.(outputSources) (exec (on_audio now f) e).(outputSources).
Proof.
  destruct e as [? ? ? ? [|] ? ? ? ? ? ? ? ? ? ? ?]; cbn; [|apply incl_refl].
  apply incl_appl, incl_refl.
Qed.

Lemma on_audio_drain_ok (now : Q) (f : nat) : preserves drain_ok (on_audio now f).
Proof. unfold on_audio, emit; pres_tac. Qed.

(** C2.  Handling an inbound [interrupted] event, whatever was queued,
    stops every scheduled source, empties the pending set, resets
    [nextStart] to 0, leaves no drain timer pending (so none can fire
    later) and sets the state to [listening] at once. *)
Theorem interrupt_flushes_playback (isMobile : bool) (perms : string -> bool)
    (e : Engine) (now : Q) (m : Message) :
  reachable isMobile perms e -> m.(interrupted) = true -> m.(toolCall) = None ->
  let e' := exec (handleServerMessage isMobile perms now m) e in
  e'.(outputSources) = [] /\ e'.(nextStartTime) = 0 /\ e'.(timeoutRef) = None
  /\ no_drain_timer e' /\ e'.(state) = Listening
  /\ forall s, In s e.(outputSources) -> In (StopSource s) e'.(effects).
Proof.
  intros Hr Hi Ht; pose proof (reachable_drain_ok _ _ _ Hr) as Hd.
  cbv zeta; rewrite (handle_no_tool_call isMobile perms now m e Ht), Hi.
  set (e1 := exec (if outputTranscription m then setState Speaking else ret tt) e).
  set (e2 := exec (if turnComplete m then on_turn_complete now else ret tt) e1).
  set (e3 := exec (match audio m with Some f => on_audio now f | None => ret tt end) e2).
  assert (Hd3 : drain_ok e3).
  { subst e3 e2 e1.
    destruct (audio m); [apply on_audio_drain_ok|];
      (destruct (turnComplete m); [apply on_turn_complete_drain_ok|]);
      destruct (outputTranscription m); exact Hd. }
  assert (Hs3 : incl e.(outputSources) e3.(outputSources)).
  { subst e3 e2 e1.
    eapply incl_tran; [|destruct (audio m); [apply on_audio_sources | apply incl_refl]].
    destruct (turnComplete m); [rewrite (proj2 (proj2 (proj2 (turn_complete_keeps_playback now _))))|];
      destruct (outputTranscription m); apply incl_refl. }
  destruct (on_interrupted_spec e3 Hd3) as (A & B & C & D & E & F).
  repeat split; auto.
  intros s Hin; rewrite F; apply in_or_app; right; apply in_map, Hs3, Hin.
Qed.

(** ** Turn completion *)

Lemma Qlt_bool_iff (a b : Q) : Qlt_bool a b = true <-> a < b.
Proof.
  unfold Qlt_bool; rewrite negb_true_iff; split; intro H.
  - apply Qnot_le_lt; intro H'; apply Qle_bool_iff in H'; congruence.
  - destruct (Qle_bool b a) eqn:E; [apply Qle_bool_iff in E; exfalso; lra | reflexivity].
Qed.

Lemma on_turn_complete_spec (now : Q) (e : Engine) :
  let pending := match e.(timeoutRef) with
                 | Some id => filter (fun t => negb (Nat.eqb t.(t_id) id)) e.(timers)
                 | None => e.(timers)
                 end in
  ((e.(outputCtx) = false \/ e.(nextStartTime) <= now) ->
     exec (on_turn_complete now) e = set_state Listening (set_timers pending e))
  /\ (e.(outputCtx) = true -> now < e.(nextStartTime) ->
       exec (on_turn_complete now) e
       = set_timeoutRef (Some e.(freshId)) (set_freshId (S e.(freshId))
           (set_timers (pending ++ [mkTimer e.(freshId) ((e.(nextStartTime) - now) * 1000 + 200)
                                            DrainToListening]) e))).
Proof.
  destruct e as [st ? ? ? ctx ? ? ? ns ? ref ts fid ? ? ?]; cbn.
  split.
  - intro H.
    assert (Hc : (ctx && Qlt_bool now ns) = false).
    { destruct H as [->|H]; [reflexivity|].
      destruct ctx; cbn; [|reflexivity].
      apply not_true_iff_false; rewrite Qlt_bool_iff; lra. }
    unfold exec, on_turn_complete, clear_drain_timer;
      destruct ref; cbn; rewrite Hc; reflexivity.
  - intros -> H.
    assert (Hc : Qlt_bool now ns = true) by (apply Qlt_bool_iff; exact H).
    assert (Hm : Math_max 0 (ns - now) = ns - now).
    { unfold Math_max; replace (Qle_bool 0 (ns - now)) with true; [reflexivity|].
      symmetry; apply Qle_bool_iff; lra. }
    unfold exec, on_turn_complete, clear_drain_timer;
      destruct ref; cbn; rewrite Hc; cbn; rewrite Hm; reflexivity.
Qed.

(** C3.  On turn completion (a [turnComplete] message), the pending drain
    timer is cleared first; then if no playback is queued past the device
    clock the state becomes [listening] at once and no timer is armed,
    and otherwise one drain timer is armed for exactly the remaining
    playback time in milliseconds plus 200, the state being left as it was
    until it fires. *)
Theorem turn_complete_drain (isMobile : bool) (perms : string -> bool)
    (e : Engine) (now : Q) (m : Message) :
  m.(turnComplete) = true -> m.(toolCall) = None -> m.(audio) = None -> m.(interrupted) = false ->
  let e' := exec (handleServerMessage isMobile perms now m) e in
  let pending := match e.(timeoutRef) with
                 | Some id => filter (fun t => negb (Nat.eqb t.(t_id) id)) e.(timers)
                 | None => e.(timers)
                 end in
  ((e.(outputCtx) = false \/ e.(nextStartTime) <= now) ->
     e'.(state) = Listening /\ e'.(timers) = pending)
  /\ (e.(outputCtx) = true -> now < e.(nextStartTime) ->
       e'.(timeoutRef) = Some e.(freshId)
       /\ e'.(timers) = pending ++ [mkTimer e.(freshId) ((e.(nextStartTime) - now) * 1000 + 200)
                                            DrainToListening]
       /\ e'.(state) = (if m.(outputTranscription) then Speaking else e.(state))).
Proof.
  intros Htc Ht Ha Hi; cbv zeta.
  rewrite (handle_no_tool_call isMobile perms now m e Ht), Htc, Ha, Hi.
  set (e1 := exec (if outputTranscription m then setState Speaking else ret tt) e).
  assert (E1 : e1 = if outputTranscription m then set_state Speaking e else e)
    by (subst e1; destruct (outputTranscription m); reflexivity).
  destruct (on_turn_complete_spec now e1) as [H1 H2]; cbv zeta in H1, H2.
  change (exec (ret tt) ?x) with x.
  rewrite E1 in H1, H2 |- *.
  split.
  - intro H; rewrite H1 by (destruct (outputTranscription m); exact H).
    destruct (outputTranscription m); split; reflexivity.
  - intros Hc Hl; rewrite H2 by (destruct (outputTranscription m); assumption).
    destruct (outputTranscription m); repeat split; reflexivity.
Qed.

(** ** Tool calls *)

Lemma tool_responses_window_opens (fx : list Effect) :
  Forall (fun x => exists u, x = WindowOpen u) fx -> tool_responses fx = [].
Proof. induction 1 as [|x fx [u ->] _ IH]; cbn; auto. Qed.

(** One round of the tool-call loop: the call's dispatch, the log update
    and, while a session is set, the response. *)
Lemma handle_calls_cons (isMobile : bool) (perms : string -> bool)
    (fc : FunctionCall) (L : list FunctionCall) (e : Engine) :
  handle_calls isMobile perms (fc :: L) e
  = match dispatch isMobile perms fc e with
    | (e1, Some r) =>
        let e1' := set_systemActions (push_action (fst r) e1.(systemActions)) e1 in
        handle_calls isMobile perms L
          (if e1'.(session)
           then set_effects (e1'.(effects) ++ [SendToolResponse fc.(fc_id) fc.(fc_name) (snd r)]) e1'
           else e1')
    | (e1, None) => (e1, None)
    end.
Proof.
  cbn [handle_calls]; unfold bind at 1.
  destruct (dispatch isMobile perms fc e) as [e1 [r|]]; [|reflexivity].
  unfold bind, modify, get, emit, ret; cbn.
  destruct (session e1); reflexivity.
Qed.

(** C4 (as the code behaves).  While a session is set, a batch whose
    handlers all complete answers every call exactly once, in order, with
    the call's own id and name, and sends no other tool response.  When the
    handler of a call throws, the whole message handler aborts there: the
    calls before it are answered as above, and neither that call nor any
    later call of the batch gets a response. *)
Theorem tool_calls_answered (isMobile : bool) (perms : string -> bool)
    (fcs rest : list FunctionCall) (e : Engine) :
  e.(session) = true ->
  (forall fc, In fc fcs -> forall e0, snd (dispatch isMobile perms fc e0) <> None) ->
  tool_responses (exec (handle_calls isMobile perms fcs) e).(effects)
  = tool_responses e.(effects) ++ map (fun fc => (fc.(fc_id), fc.(fc_name))) fcs
  /\ (forall fc, (forall e0, snd (dispatch isMobile perms fc e0) = None) ->
      snd (handle_calls isMobile perms (fcs ++ fc :: rest) e) = None
      /\ tool_responses (exec (handle_calls isMobile perms (fcs ++ fc :: rest)) e).(effects)
         = tool_responses e.(effects) ++ map (fun fc => (fc.(fc_id), fc.(fc_name))) fcs).
Proof.
  revert e; induction fcs as [|fc0 fcs IH]; intros e Hs Hok.
  - split; [cbn; rewrite app_nil_r; reflexivity|].
    intros fc Hth; cbn [app]; unfold exec; rewrite handle_calls_cons.
    pose proof (dispatch_frame_only isMobile perms fc e) as Hf; specialize (Hth e).
    destruct (dispatch isMobile perms fc e) as [e1 [r|]]; [discriminate|]; cbn in Hf |- *.
    destruct Hf as (ts & fx & n & -> & _ & Hfx); split; [reflexivity|]; cbn.
    rewrite tool_responses_app, (tool_responses_window_opens fx Hfx), !app_nil_r; reflexivity.
  - pose proof (dispatch_frame_only isMobile perms fc0 e) as Hf.
    pose proof (Hok fc0 (or_introl eq_refl) e) as Hnt.
    assert (Hc : exists e2, e2.(session) = true
               /\ tool_responses e2.(effects)
                  = tool_responses e.(effects) ++ [(fc0.(fc_id), fc0.(fc_name))]
               /\ forall L, handle_calls isMobile perms (fc0 :: L) e = handle_calls isMobile perms L e2).
    { destruct (dispatch isMobile perms fc0 e) as [e1 [r|]] eqn:Hd; [|contradiction]; cbn in Hf.
      destruct Hf as (ts & fx & n & -> & _ & Hfx).
      match type of Hd with _ = (?e1, _) =>
        exists (set_effects ((set_systemActions (push_action (fst r) e1.(systemActions)) e1).(effects)
                  ++ [SendToolResponse fc0.(fc_id) fc0.(fc_name) (snd r)])
                 (set_systemActions (push_action (fst r) e1.(systemActions)) e1)) end.
      split; [|split].
      + cbn; exact Hs.
      + cbn; rewrite !tool_responses_app, (tool_responses_window_opens fx Hfx); cbn.
        rewrite app_nil_r; reflexivity.
      + intro L; rewrite handle_calls_cons, Hd; cbn -[handle_calls]; rewrite Hs; reflexivity. }
    destruct Hc as (e2 & Hs2 & He2 & Hcons).
    destruct (IH e2 Hs2 (fun fc Hin => Hok fc (or_intror Hin))) as [IH1 IH2].
    cbn [app]; unfold exec; split.
    + rewrite Hcons; unfold exec in IH1; rewrite IH1, He2, <- app_assoc; reflexivity.
    + intros fc Hth; rewrite Hcons; destruct (IH2 fc Hth) as [A B]; split; [exact A|].
      unfold exec in B; rewrite B, He2, <- app_assoc; reflexivity.
Qed.


Lemma nothrow_ret {A} (a : A) : nothrow (ret a).
Proof. intros e; discriminate. Qed.

Lemma nothrow_bind {A B} (m : M A) (k : A -> M B) :
  nothrow m -> (forall a, nothrow (k a)) -> nothrow (bind m k).
Proof.
  intros Hm Hk e; unfold bind.
  specialize (Hm e); destruct (m e) as [e1 [a|]]; [apply Hk | contradiction].
Qed.

Lemma nothrow_bind_ret {A B} (a : A) (k : A -> M B) :
  nothrow (k a) -> nothrow (bind (ret a) k).
Proof. intros H e; exact (H e). Qed.

Lemma nothrow_window_open (u : string) : nothrow (window_open u).
Proof. intros e; discriminate. Qed.

Lemma nothrow_setTimeout (d : Q) (cb : TimerCb) : nothrow (setTimeout d cb).
Proof. intros e; discriminate. Qed.

Ltac nothrow_tac :=
  repeat first
    [ apply nothrow_ret | apply nothrow_window_open | apply nothrow_setTimeout
    | apply nothrow_bind_ret
    | apply nothrow_bind; intros
    | progress cbv zeta
    | match goal with
      | |- nothrow (if ?b then _ else _) => destruct b eqn:?
      | |- nothrow (match ?x with _ => _ end) => destruct x eqn:?
      end ].

(** Every handler completes when the [args] object is present, except
    [launchApp] without [appName]. *)
Lemma dispatch_nothrow (isMobile : bool) (perms : string -> bool) (fc : FunctionCall)
    (a : list (string * string)) :
  fc.(fc_args) = Some a -> (fc.(fc_name) <> "launchApp" \/ assoc a "appName" <> None) ->
  nothrow (dispatch isMobile perms fc).
Proof.
  intros Ha Hd; unfold dispatch, args_of; rewrite Ha; nothrow_tac.
  match goal with H : String.eqb (fc_name fc) "launchApp" = true |- _ => apply String.eqb_eq in H end.
  exfalso; destruct Hd; congruence.
Qed.

(** C7 (as the code behaves).  For a call whose [args] object is
    present, the handler throws exactly when the call is [launchApp] and
    [appName] is missing; every other missing argument is tolerated
    (printed as [undefined] or defaulted) and yields a result. *)
Theorem missing_argument_handling (isMobile : bool) (perms : string -> bool)
    (fc : FunctionCall) (a : list (string * string)) (e : Engine) :
  fc.(fc_args) = Some a ->
  (snd (dispatch isMobile perms fc e) = None
   <-> fc.(fc_name) = "launchApp" /\ assoc a "appName" = None).
Proof.
  intro Ha; split.
  - intro Hthrow.
    destruct (string_dec (fc_name fc) "launchApp") as [Hn|Hn];
      [destruct (assoc a "appName") eqn:Hap; [|split; auto]|];
      exfalso; refine (dispatch_nothrow isMobile perms fc a Ha _ e Hthrow);
      [right; congruence | left; exact Hn].
  - intros [Hn Hap]; unfold dispatch; rewrite Hn; cbn.
    unfold args_of, bind; rewrite Ha; cbn; rewrite Hap; reflexivity.
Qed.

(** C8 (as the code behaves).  A tool-call dispatch that completes puts
    its description at position 0 of the recent-actions log and keeps the
    5 newest entries; a dispatch that throws ends the batch and adds no
    entry. *)
Theorem recent_actions_log (isMobile : bool) (perms : string -> bool)
    (fc : FunctionCall) (rest : list FunctionCall) (e : Engine) :
  match dispatch isMobile perms fc e with
  | (e1, Some (d, _)) =>
      exists e2, e2.(systemActions) = firstn 5 (d :: e.(systemActions))
                 /\ hd_error e2.(systemActions) = Some d
                 /\ (length e2.(systemActions) <= 5)%nat
                 /\ handle_calls isMobile perms (fc :: rest) e = handle_calls isMobile perms rest e2
  | (e1, None) =>
      handle_calls isMobile perms (fc :: rest) e = (e1, None)
      /\ e1.(systemActions) = e.(systemActions)
  end.
Proof.
  pose proof (dispatch_frame_only isMobile perms fc e) as Hf.
  destruct (dispatch isMobile perms fc e) as [e1 [[d r]|]] eqn:Hd; cbn in Hf;
    destruct Hf as (ts & fx & n & -> & _ & _);
    cbn [handle_calls]; unfold bind at 1; rewrite Hd.
  - unfold bind, modify, get; cbn.
    destruct (session e); cbn; eexists; refine (conj _ (conj _ (conj _ eq_refl)));
      first [ reflexivity
            | cbn; destruct (systemActions e) as [|? [|? [|? [|? []]]]]; cbn; lia ].
  - split; reflexivity.
Qed.

(** ** Stopping *)

Lemma Engine_ext (a b : Engine) :
  a.(state) = b.(state) -> a.(session) = b.(session) -> a.(mediaStream) = b.(mediaStream) ->
  a.(inputCtx) = b.(inputCtx) -> a.(outputCtx) = b.(outputCtx) -> a.(capture) = b.(capture) ->
  a.(startPending) = b.(startPending) -> a.(openPending) = b.(openPending) ->
  a.(nextStartTime) = b.(nextStartTime) -> a.(outputSources) = b.(outputSources) ->
  a.(timeoutRef) = b.(timeoutRef) -> a.(timers) = b.(timers) -> a.(freshId) = b.(freshId) ->
  a.(systemActions) = b.(systemActions) -> a.(effects) = b.(effects) ->
  a.(openAudioContexts) = b.(openAudioContexts) -> a = b.
Proof. destruct a, b; cbn; intros; subst; reflexivity. Qed.

Lemma stop_after_cancel (e : Engine) :
  e.(timeoutRef) = None ->
  exec stopConversation e
  = set_openAudioContexts
      ((if e.(outputCtx) then pred else fun n => n)
         ((if e.(inputCtx) then pred else fun n => n) e.(openAudioContexts)))
    (set_systemActions [] (set_state Idle (set_outputCtx false
      (set_outputSources [] (set_effects
        (e.(effects) ++ (if e.(session) then [CloseSession] else [])
                     ++ (if e.(mediaStream) then [StopTracks] else [])
                     ++ (if e.(inputCtx) then [CloseInputCtx] else [])
                     ++ map StopSource e.(outputSources)
                     ++ (if e.(outputCtx) then [CloseOutputCtx] else []))
        (set_inputCtx false (set_capture false (set_mediaStream false (set_session false e))))))))).
Proof.
  destruct e as [st ses ms ic oc cap sp op ns srcs ref ts fid sa fx nac]; cbn; intros ->.
  unfold exec, stopConversation, cancel_drain_timer, stop_all_sources, bind, get, modify, emit, setState; cbn.
  destruct ses, ms, ic; cbn; rewrite forEach_stop; cbn; destruct oc; cbn;
    apply Engine_ext; cbn; try reflexivity; repeat rewrite <- app_assoc; cbn [app];
    rewrite ?app_nil_r; reflexivity.
Qed.

Lemma cancel_drain_timer_clears (e : Engine) : (exec cancel_drain_timer e).(timeoutRef) = None.
Proof. destruct e as [? ? ? ? ? ? ? ? ? ? [|] ? ? ? ? ?]; reflexivity. Qed.

Lemma cancel_idle (e : Engine) : e.(timeoutRef) = None -> exec cancel_drain_timer e = e.
Proof. destruct e; cbn; intros ->; reflexivity. Qed.

Lemma stop_via_cancel (e : Engine) :
  exec stopConversation e = exec stopConversation (exec cancel_drain_timer e).
Proof.
  unfold stopConversation; rewrite !exec_seq by apply cancel_drain_timer_total.
  rewrite (cancel_idle _ (cancel_drain_timer_clears e)); reflexivity.
Qed.

Lemma stopConversation_spec (e : Engine) :
  drain_ok e ->
  let e' := exec stopConversation e in
  e'.(state) = Idle /\ e'.(session) = false /\ e'.(mediaStream) = false
  /\ e'.(capture) = false /\ e'.(inputCtx) = false /\ e'.(outputCtx) = false
  /\ e'.(outputSources) = [] /\ e'.(timeoutRef) = None /\ no_drain_timer e'
  /\ (forall s, In s e.(outputSources) -> In (StopSource s) e'.(effects)).
Proof.
  intro Hd; cbv zeta.
  destruct (cancel_drain_timer_spec e Hd) as (Hn & Hr & He); cbv zeta in He.
  rewrite stop_via_cancel, (stop_after_cancel _ Hr); rewrite He in Hn |- *; cbn.
  repeat split; try reflexivity.
  - intros t Hin; apply Hn; exact Hin.
  - intros s Hin; apply in_or_app; right.
    apply in_or_app; right; apply in_or_app; right; apply in_or_app; right.
    apply in_or_app; left; apply in_map, Hin.
Qed.

Lemma stopConversation_twice (e : Engine) :
  exec stopConversation (exec stopConversation e) = exec stopConversation e.
Proof.
  rewrite (stop_via_cancel e), (stop_after_cancel _ (cancel_drain_timer_clears e)).
  set (e0 := exec cancel_drain_timer e).
  set (e1 := set_openAudioContexts _ _).
  assert (Hr : e1.(timeoutRef) = None) by exact (cancel_drain_timer_clears e).
  rewrite (stop_after_cancel _ Hr).
  apply Engine_ext; cbn; try reflexivity; rewrite !app_nil_r; reflexivity.
Qed.

(** C5 (code bug).  Two runs after which [stopConversation] has not
    released everything.
    - A start whose [getUserMedia] is refused leaves its output context open
      and held by the ref (the [catch] closes nothing); the next start
      stores a new context in the ref, so the first one is never closed:
      after start, refusal, start, grant, [onopen] and stop, the state is
      [idle] and every ref is null, yet one [AudioContext] is still open.
    - A stop issued while [startConversation] waits on [getUserMedia] does
      not cancel it (no check follows the [await], unlike [onopen]): the
      start resumes, opens a session and a new input context, reconnects
      capture and sends the next frame, in state [listening]. *)
Theorem stopConversation_leaves_context_and_pending_start :
  match run false (fun _ => true)
          [EvStart; EvMediaDenied; EvStart; EvMediaGranted; EvOpen; EvStop] initEngine with
  | Some e => e.(state) = Idle /\ e.(session) = false /\ e.(inputCtx) = false
              /\ e.(outputCtx) = false /\ e.(capture) = false
              /\ e.(effects) = [CloseSession; StopTracks; CloseInputCtx; CloseOutputCtx]
              /\ e.(openAudioContexts) = 1%nat
  | None => False
  end
  /\ match run false (fun _ => true)
             [EvStart; EvStop; EvMediaGranted; EvOpen; EvCapture [1 # 2]] initEngine with
     | Some e => e.(state) = Listening /\ e.(session) = true /\ e.(mediaStream) = true
                 /\ e.(capture) = true /\ e.(openAudioContexts) = 1%nat
                 /\ e.(effects) = [CloseOutputCtx; SendRealtimeInput [16384%Z]]
     | None => False
     end.
Proof. vm_compute; repeat split; reflexivity. Qed.

(** ** Capture conversion *)

(** C9, counterexample.  [int16[i] = inputData[i] * 32768] stores
    through ToInt16: a full-scale sample 1.0 wraps to -32768 where the
    clamped conversion gives 32767, and 0.75/32768 truncates to 0 where
    rounding gives 1. *)
Theorem pcm16_wraps_and_truncates :
  to_pcm16 [1; 3 # 131072] = [(-32768)%Z; 0%Z]
  /\ map claimed_pcm16 [1; 3 # 131072] = [32767%Z; 1%Z].
Proof. split; reflexivity. Qed.

(** ** No state gate on capture or playback *)

(** C10 (as the code behaves).  A captured frame is encoded and sent
    whenever capture is connected and a session is set, and an inbound
    audio buffer is scheduled whenever the output context is open,
    whatever the assistant state; the state is left unchanged. *)
Theorem capture_and_playback_ungated (isMobile : bool) (perms : string -> bool)
    (e : Engine) (d : list Q) (now : Q) (f : nat) :
  e.(capture) = true -> e.(session) = true ->
  step isMobile perms (EvCapture d) e
    = Some (set_effects (e.(effects) ++ [SendRealtimeInput (to_pcm16 d)]) e)
  /\ (e.(openPending) = false -> e.(outputCtx) = true ->
      exists e', step isMobile perms (EvMessage now (mkMessage false false None (Some f) false)) e = Some e'
                 /\ e'.(state) = e.(state)
                 /\ started e'.(effects)
                    = started e.(effects)
                      ++ [mkSource e.(freshId) (Math_max e.(nextStartTime) now) (decoded_duration f)]).
Proof.
  intros Hc Hs; split.
  - unfold step; rewrite Hc; unfold exec, onaudioprocess, bind, get; rewrite Hs; reflexivity.
  - intros Ho Hctx; unfold step; rewrite Hs, Ho; cbn; eexists; split; [reflexivity|].
    destruct e as [st ses ms ic oc cap sp op ns srcs ref ts fid sa fx nac]; cbn in *; subst.
    split; [reflexivity|].
    cbn; rewrite started_app; reflexivity.
Qed.

(** ** Concrete runs *)

(** C4, counterexample.  In an open session, the batch [throwing_batch]
    aborts at its first call: neither call is answered. *)
Lemma batch_after_throw_unanswered :
  opened_engine.(session) = true
  /\ snd (handleServerMessage false (fun _ => true) 0
            (mkMessage false false (Some throwing_batch) None false) opened_engine) = None
  /\ tool_responses
       (exec (handleServerMessage false (fun _ => true) 0
                (mkMessage false false (Some throwing_batch) None false)) opened_engine).(effects)
     = [].
Proof. vm_compute; repeat split; reflexivity. Qed.

(** C7, counterexample.  [launchApp] without [appName] throws out of the
    message handler with no result, and so does any known tool whose
    [args] object is absent. *)
Lemma launchApp_missing_appName_escapes :
  snd (handleServerMessage false (fun _ => true) 0
         (mkMessage false false (Some [mkCall "call-1" "launchApp" (Some [])]) None false)
         opened_engine) = None
  /\ snd (dispatch false (fun _ => true) (mkCall "call-3" "makeCall" None) opened_engine) = None.
Proof. vm_compute; split; reflexivity. Qed.

(** C8, counterexample.  A dispatch that throws appends no log line. *)
Lemma throwing_dispatch_logs_nothing :
  snd (dispatch false (fun _ => true) (mkCall "call-1" "launchApp" (Some [])) playing_engine) = None
  /\ (exec (handleServerMessage false (fun _ => true) 0
              (mkMessage false false (Some throwing_batch) None false)) playing_engine).(systemActions)
     = playing_engine.(systemActions).
Proof. vm_compute; split; reflexivity. Qed.

(** C10, counterexample.  A frame captured while [speaking] is sent, and
    model audio arriving while plainly [listening] is scheduled. *)
Lemma frames_sent_while_speaking :
  match run false (fun _ => true)
          (session_open ++ [EvMessage 0 (mkMessage true false None None false); EvCapture [1 # 2]])
          initEngine with
  | Some e => e.(state) = Speaking /\ In (SendRealtimeInput [16384%Z]) e.(effects)
  | None => False
  end
  /\ opened_engine.(state) = Listening
  /\ match step false (fun _ => true) (EvMessage 0 (audio_msg 2400)) opened_engine with
     | Some e => e.(state) = Listening /\ started e.(effects) = [mkSource 1 0 (decoded_duration 2400)]
     | None => False
     end.
Proof. vm_compute; repeat split; auto 10. Qed.

(** ** Witnesses *)

Lemma playback_schedule_contiguous_witness :
  opened_engine.(outputCtx) = true
  /\ Forall (fun p => audio_delta (snd p)) [(0, audio_msg 2400); (1 # 20, audio_msg 2400)]
  /\ exists srcs,
       started (feed false (fun _ => true) [(0, audio_msg 2400); (1 # 20, audio_msg 2400)]
                  opened_engine).(effects)
       = started opened_engine.(effects) ++ srcs
       /\ sched_ok opened_engine.(nextStartTime) [(0, audio_msg 2400); (1 # 20, audio_msg 2400)] srcs
       /\ forall k s s' now',
            nth_error srcs k = Some s -> nth_error srcs (S k) = Some s' ->
            nth_error (map fst [(0, audio_msg 2400); (1 # 20, audio_msg 2400)]) (S k) = Some now' ->
            s.(src_start) <= s'.(src_start)
            /\ (now' <= s.(src_start) -> s'.(src_start) == s.(src_start) + s.(src_dur)).
Proof.
  assert (H1 : opened_engine.(outputCtx) = true) by (vm_compute; reflexivity).
  assert (H2 : Forall (fun p => audio_delta (snd p)) [(0, audio_msg 2400); (1 # 20, audio_msg 2400)])
    by (repeat apply Forall_cons; try apply Forall_nil; repeat split; exists 2400%nat; reflexivity).
  exact (conj H1 (conj H2 (playback_schedule_contiguous false (fun _ => true) opened_engine _ H1 H2))).
Defined.

Lemma interrupt_flushes_playback_witness :
  reachable false (fun _ => true) playing_engine
  /\ (mkMessage false false None None true).(interrupted) = true
  /\ (mkMessage false false None None true).(toolCall) = None
  /\ let e' := exec (handleServerMessage false (fun _ => true) (1 # 20)
                       (mkMessage false false None None true)) playing_engine in
     e'.(outputSources) = [] /\ e'.(nextStartTime) = 0 /\ e'.(timeoutRef) = None
     /\ no_drain_timer e' /\ e'.(state) = Listening
     /\ forall s, In s playing_engine.(outputSources) -> In (StopSource s) e'.(effects).
Proof.
  assert (H1 : reachable false (fun _ => true) playing_engine)
    by (exists (session_open ++ [EvMessage 0 (audio_msg 2400)]); vm_compute; reflexivity).
  assert (H2 : (mkMessage false false None None true).(interrupted) = true) by reflexivity.
  assert (H3 : (mkMessage false false None None true).(toolCall) = None) by reflexivity.
  exact (conj H1 (conj H2 (conj H3
    (interrupt_flushes_playback false (fun _ => true) playing_engine (1 # 20) _ H1 H2 H3)))).
Defined.

Lemma turn_complete_drain_witness :
  (mkMessage false true None None false).(turnComplete) = true
  /\ (mkMessage false true None None false).(toolCall) = None
  /\ (mkMessage false true None None false).(audio) = None
  /\ (mkMessage false true None None false).(interrupted) = false
  /\ let m := mkMessage false true None None false in
     let e := playing_engine in
     let e' := exec (handleServerMessage false (fun _ => true) (1 # 20) m) e in
     let pending := match e.(timeoutRef) with
                    | Some id => filter (fun t => negb (Nat.eqb t.(t_id) id)) e.(timers)
                    | None => e.(timers)
                    end in
     ((e.(outputCtx) = false \/ e.(nextStartTime) <= (1 # 20)) ->
        e'.(state) = Listening /\ e'.(timers) = pending)
     /\ (e.(outputCtx) = true -> (1 # 20) < e.(nextStartTime) ->
          e'.(timeoutRef) = Some e.(freshId)
          /\ e'.(timers) = pending ++ [mkTimer e.(freshId) ((e.(nextStartTime) - (1 # 20)) * 1000 + 200)
                                               DrainToListening]
          /\ e'.(state) = (if m.(outputTranscription) then Speaking else e.(state))).
Proof.
  assert (H1 : (mkMessage false true None None false).(turnComplete) = true) by reflexivity.
  assert (H2 : (mkMessage false true None None false).(toolCall) = None) by reflexivity.
  assert (H3 : (mkMessage false true None None false).(audio) = None) by reflexivity.
  assert (H4 : (mkMessage false true None None false).(interrupted) = false) by reflexivity.
  exact (conj H1 (conj H2 (conj H3 (conj H4
    (turn_complete_drain false (fun _ => true) playing_engine (1 # 20) _ H1 H2 H3 H4))))).
Defined.

Lemma tool_calls_answered_witness :
  opened_engine.(session) = true
  /\ (forall fc, In fc [mkCall "call-1" "controlLight" (Some [("device", "lamp")]);
                        mkCall "call-2" "setAlarm" (Some [])] ->
      forall e0, snd (dispatch false (fun _ => true) fc e0) <> None)
  /\ (forall e0, snd (dispatch false (fun _ => true) (mkCall "call-3" "launchApp" (Some [])) e0) = None)
  /\ tool_responses
       (exec (handle_calls false (fun _ => true)
                [mkCall "call-1" "controlLight" (Some [("device", "lamp")]);
                 mkCall "call-2" "setAlarm" (Some [])]) opened_engine).(effects)
     = tool_responses opened_engine.(effects)
       ++ map (fun fc => (fc.(fc_id), fc.(fc_name)))
              [mkCall "call-1" "controlLight" (Some [("device", "lamp")]);
               mkCall "call-2" "setAlarm" (Some [])]
  /\ snd (handle_calls false (fun _ => true)
            ([mkCall "call-1" "controlLight" (Some [("device", "lamp")]);
              mkCall "call-2" "setAlarm" (Some [])]
             ++ mkCall "call-3" "launchApp" (Some []) :: [mkCall "call-4" "setAlarm" (Some [])])
            opened_engine) = None
  /\ tool_responses
       (exec (handle_calls false (fun _ => true)
                ([mkCall "call-1" "controlLight" (Some [("device", "lamp")]);
                  mkCall "call-2" "setAlarm" (Some [])]
                 ++ mkCall "call-3" "launchApp" (Some []) :: [mkCall "call-4" "setAlarm" (Some [])]))
             opened_engine).(effects)
     = tool_responses opened_engine.(effects)
       ++ map (fun fc => (fc.(fc_id), fc.(fc_name)))
              [mkCall "call-1" "controlLight" (Some [("device", "lamp")]);
               mkCall "call-2" "setAlarm" (Some [])].
Proof.
  assert (H1 : opened_engine.(session) = true) by (vm_compute; reflexivity).
  assert (H2 : forall fc, In fc [mkCall "call-1" "controlLight" (Some [("device", "lamp")]);
                                 mkCall "call-2" "setAlarm" (Some [])] ->
               forall e0, snd (dispatch false (fun _ => true) fc e0) <> None)
    by (intros fc [<-|[<-|[]]] e0; vm_compute; discriminate).
  assert (H3 : forall e0, snd (dispatch false (fun _ => true) (mkCall "call-3" "launchApp" (Some [])) e0) = None)
    by (intro e0; vm_compute; reflexivity).
  destruct (tool_calls_answered false (fun _ => true) _ [mkCall "call-4" "setAlarm" (Some [])]
              opened_engine H1 H2) as [A B].
  exact (conj H1 (conj H2 (conj H3 (conj A (B _ H3))))).
Defined.


Lemma missing_argument_handling_witness :
  (mkCall "call-1" "launchApp" (Some [])).(fc_args) = Some []
  /\ (snd (dispatch false (fun _ => true) (mkCall "call-1" "launchApp" (Some [])) opened_engine) = None
      <-> (mkCall "call-1" "launchApp" (Some [])).(fc_name) = "launchApp" /\ assoc [] "appName" = None).
Proof.
  assert (H : (mkCall "call-1" "launchApp" (Some [])).(fc_args) = Some []) by reflexivity.
  exact (conj H (missing_argument_handling false (fun _ => true) _ [] opened_engine H)).
Defined.

Lemma capture_and_playback_ungated_witness :
  opened_engine.(capture) = true /\ opened_engine.(session) = true
  /\ step false (fun _ => true) (EvCapture [1 # 2]) opened_engine
       = Some (set_effects (opened_engine.(effects) ++ [SendRealtimeInput (to_pcm16 [1 # 2])])
                 opened_engine)
  /\ (opened_engine.(openPending) = false -> opened_engine.(outputCtx) = true ->
      exists e', step false (fun _ => true) (EvMessage 0 (mkMessage false false None (Some 2400%nat) false))
                   opened_engine = Some e'
                 /\ e'.(state) = opened_engine.(state)
                 /\ started e'.(effects)
                    = started opened_engine.(effects)
                      ++ [mkSource opened_engine.(freshId) (Math_max opened_engine.(nextStartTime) 0)
                                   (decoded_duration 2400%nat)]).
Proof.
  assert (H1 : opened_engine.(capture) = true) by (vm_compute; reflexivity).
  assert (H2 : opened_engine.(session) = true) by (vm_compute; reflexivity).
  exact (conj H1 (conj H2
    (capture_and_playback_ungated false (fun _ => true) opened_engine [1 # 2] 0 2400%nat H1 H2))).
Defined.

(** ** Capture conversion in range *)

Lemma ToInt16_small (x : Q) :
  (-32768 <= Z.quot (Qnum x) (Zpos (Qden x)) <= 32767)%Z ->
  ToInt16 x = Z.quot (Qnum x) (Zpos (Qden x)).
Proof.
  unfold ToInt16; cbv zeta; set (q := Z.quot (Qnum x) (Zpos (Qden x))); intro Hq.
  destruct (Z.leb_spec 0 q) as [Hp|Hn].
  - rewrite Z.mod_small by lia.
    destruct (Z.leb_spec 32768 q); [lia | reflexivity].
  - rewrite <- (Z.mod_unique_pos q 65536 (-1) (q + 65536)) by lia.
    destruct (Z.leb_spec 32768 (q + 65536)); [lia | lia].
Qed.

Lemma quot_trunc (n : Z) (d : positive) :
  let q := Z.quot n (Zpos d) in
  ((0 <= n)%Z -> (q * Zpos d <= n < (q + 1) * Zpos d)%Z)
  /\ ((n < 0)%Z -> ((q - 1) * Zpos d < n <= q * Zpos d)%Z).
Proof.
  cbv zeta; pose proof (Z.quot_rem' n (Zpos d)) as Hqr.
  pose proof (Z.rem_bound_abs n (Zpos d) ltac:(lia)) as Hb.
  split; intro Hs.
  - pose proof (Z.rem_nonneg n (Zpos d) ltac:(lia) Hs) as Hr.
    rewrite Z.abs_eq in Hb by lia; cbn in Hb; nia.
  - pose proof (Z.rem_nonpos n (Zpos d) ltac:(lia) ltac:(lia)) as Hr.
    rewrite Z.abs_neq in Hb by lia; cbn in Hb; nia.
Qed.

Lemma pcm16_sample (s : Q) :
  -1 <= s < 1 ->
  let r := ToInt16 (s * 32768) in
  (-32768 <= r <= 32767)%Z
  /\ (0 <= s -> inject_Z r <= s * 32768 < inject_Z r + 1)
  /\ (s < 0 -> inject_Z r - 1 < s * 32768 <= inject_Z r).
Proof.
  intros [Hlo Hhi]; cbv zeta.
  assert (Hx : -32768 <= s * 32768 < 32768) by (split; lra).
  assert (Hsx : (0 <= s -> 0 <= s * 32768) /\ (s < 0 -> s * 32768 < 0)) by (split; intro; lra).
  destruct (s * 32768) as [n d]; destruct Hx as [Hx1 Hx2]; destruct Hsx as [Hs1 Hs2].
  unfold Qle, Qlt in Hx1, Hx2; cbn in Hx1, Hx2.
  destruct (quot_trunc n d) as [Tp Tn]; cbv zeta in Tp, Tn.
  assert (Hq : (-32768 <= Z.quot n (Zpos d) <= 32767)%Z).
  { destruct (Z.leb_spec 0 n) as [Hn|Hn]; [specialize (Tp Hn) | specialize (Tn Hn)]; nia. }
  rewrite (ToInt16_small (n # d) Hq); cbn.
  split; [exact Hq|split].
  - intro H0; specialize (Hs1 H0); unfold Qle in Hs1; cbn in Hs1.
    specialize (Tp ltac:(lia)).
    unfold Qle, Qlt, Qplus; cbn; split; nia.
  - intro H0; specialize (Hs2 H0); unfold Qlt in Hs2; cbn in Hs2.
    specialize (Tn ltac:(lia)).
    unfold Qle, Qlt, Qminus, Qplus; cbn; split; nia.
Qed.

(** C9 (as the code behaves).  For every captured frame and every sample
    [s] with -1 <= s < 1, the stored 16-bit value is [s * 32768]
    truncated toward zero (not rounded), and it lies in the 16-bit signed
    range. *)
Theorem pcm16_truncates_in_range (d : list Q) (i : nat) (s : Q) (r : Z) :
  nth_error d i = Some s -> nth_error (to_pcm16 d) i = Some r -> -1 <= s < 1 ->
  (-32768 <= r <= 32767)%Z
  /\ (0 <= s -> inject_Z r <= s * 32768 < inject_Z r + 1)
  /\ (s < 0 -> inject_Z r - 1 < s * 32768 <= inject_Z r).
Proof.
  intros Hs Hr Hrange; unfold to_pcm16 in Hr.
  rewrite nth_error_map, Hs in Hr; cbn in Hr; injection Hr as <-.
  exact (pcm16_sample s Hrange).
Qed.

Lemma pcm16_truncates_in_range_witness :
  nth_error [1 # 2; -3 # 131072] 1 = Some (-3 # 131072)
  /\ nth_error (to_pcm16 [1 # 2; -3 # 131072]) 1 = Some 0%Z
  /\ (-1 <= -3 # 131072 < 1)
  /\ (-32768 <= 0 <= 32767)%Z
  /\ (0 <= -3 # 131072 -> inject_Z 0 <= (-3 # 131072) * 32768 < inject_Z 0 + 1)
  /\ (-3 # 131072 < 0 -> inject_Z 0 - 1 < (-3 # 131072) * 32768 <= inject_Z 0).
Proof.
  assert (H1 : nth_error [1 # 2; -3 # 131072] 1 = Some (-3 # 131072)) by reflexivity.
  assert (H2 : nth_error (to_pcm16 [1 # 2; -3 # 131072]) 1 = Some 0%Z) by (vm_compute; reflexivity).
  assert (H3 : -1 <= -3 # 131072 < 1) by (split; vm_compute; first [discriminate | reflexivity]).
  exact (conj H1 (conj H2 (conj H3 (pcm16_truncates_in_range _ 1 _ 0 H1 H2 H3)))).
Defined.

(** * Further properties of the view *)

(** ** URL encoding *)

Lemma hex_digit_code (n : nat) : (n < 16)%nat ->
  nat_of_ascii (hex_digit n) = if (n <? 10)%nat then (48 + n)%nat else (55 + n)%nat.
Proof.
  intro H; unfold hex_digit; apply nat_ascii_embedding; destruct (n <? 10)%nat; lia.
Qed.

Lemma hex_digit_unreserved (n : nat) : (n < 16)%nat -> uri_unreserved (hex_digit n) = true.
Proof. intro H; do 16 (destruct n as [|n]; [reflexivity|]); lia. Qed.

Lemma hex_digit_inj (n m : nat) : (n < 16)%nat -> (m < 16)%nat -> hex_digit n = hex_digit m -> n = m.
Proof.
  intros Hn Hm H; apply (f_equal nat_of_ascii) in H; rewrite !hex_digit_code in H by assumption.
  destruct (Nat.ltb_spec n 10), (Nat.ltb_spec m 10); lia.
Qed.

Lemma escape_digits (c : ascii) :
  (nat_of_ascii c / 16 < 16)%nat /\ (nat_of_ascii c mod 16 < 16)%nat.
Proof.
  pose proof (nat_ascii_bounded c); split.
  - apply Nat.Div0.div_lt_upper_bound; lia.
  - apply Nat.mod_upper_bound; lia.
Qed.

(** X1.  Every character output by [encodeURIComponent] is an unreserved
    character or [%]: an argument never puts a raw [&], [=], [?], [#], [/] or
    space into the URLs the tools build. *)
Theorem encodeURIComponent_alphabet (s : string) (c : ascii) :
  In c (list_ascii_of_string (encodeURIComponent s)) -> uri_unreserved c = true \/ c = "%"%char.
Proof.
  induction s as [|x s IH]; cbn; [intros []|].
  destruct (escape_digits x) as [H1 H2].
  destruct (uri_unreserved x) eqn:Hx; cbn; intros [<-|H].
  - left; exact Hx.
  - exact (IH H).
  - right; reflexivity.
  - destruct H as [<-|[<-|H]]; [left; apply hex_digit_unreserved; exact H1
                              | left; apply hex_digit_unreserved; exact H2 | exact (IH H)].
Qed.

Lemma String3_inj (c a b a' b' : ascii) (r r' : string) :
  String c (String a (String b r)) = String c (String a' (String b' r')) -> a = a' /\ b = b' /\ r = r'.
Proof. intro H; injection H as H1 H2 H3; auto. Qed.

(** X2.  [encodeURIComponent] is injective: distinct arguments give distinct
    encoded strings. *)
Theorem encodeURIComponent_injective (s1 s2 : string) :
  encodeURIComponent s1 = encodeURIComponent s2 -> s1 = s2.
Proof.
  revert s2; induction s1 as [|x s1 IH]; intros [|y s2]; cbn [encodeURIComponent]; try reflexivity.
  - destruct (uri_unreserved y); discriminate.
  - destruct (uri_unreserved x); discriminate.
  - destruct (uri_unreserved x) eqn:Hx, (uri_unreserved y) eqn:Hy; intro H.
    + injection H as <- H; f_equal; exact (IH _ H).
    + injection H as Hxy _; subst x; discriminate.
    + injection H as Hxy _; subst y; discriminate.
    + apply String3_inj in H as (H1 & H2 & H); f_equal; [|exact (IH _ H)].
      destruct (escape_digits x) as [Hx1 Hx2], (escape_digits y) as [Hy1 Hy2].
      apply hex_digit_inj in H1, H2; try assumption.
      rewrite <- (ascii_nat_embedding x), <- (ascii_nat_embedding y); f_equal.
      rewrite (Nat.div_mod (nat_of_ascii x) 16), (Nat.div_mod (nat_of_ascii y) 16) by lia. lia.
Qed.

(** X3.  A string made only of unreserved characters is left unchanged by
    [encodeURIComponent]. *)
Theorem encodeURIComponent_unreserved_id (s : string) :
  forallb uri_unreserved (list_ascii_of_string s) = true -> encodeURIComponent s = s.
Proof.
  induction s as [|x s IH]; cbn; [reflexivity|].
  intro H; apply andb_prop in H as [Hx H]; rewrite Hx, (IH H); reflexivity.
Qed.

(** ** Tool calls, further *)

Lemma post_ret {A} (P : A -> Prop) (a : A) : P a -> post P (ret a).
Proof. intros H e; exact H. Qed.

Lemma post_throw {A} (P : A -> Prop) : post P (@throw A).
Proof. intros e; exact I. Qed.

Lemma post_bind {A B} (P : B -> Prop) (m : M A) (k : A -> M B) :
  (forall a, post P (k a)) -> post P (bind m k).
Proof.
  intros Hk e; unfold bind; destruct (m e) as [e1 [a|]]; [apply Hk | exact I].
Qed.

Lemma post_bind_ret {A B} (P : B -> Prop) (a : A) (k : A -> M B) :
  post P (k a) -> post P (bind (ret a) k).
Proof. intros H e; exact (H e). Qed.

Ltac post_tac :=
  repeat
    match goal with
    | |- post _ (ret _) => apply post_ret
    | |- post _ throw => apply post_throw
    | |- post _ (bind (ret _) _) => apply post_bind_ret
    | |- post _ (bind _ _) => apply post_bind; intros
    | |- post _ (let _ := _ in _) => cbv zeta
    | |- post _ (if ?b then _ else _) => destruct b eqn:?
    | |- post _ (match ?x with _ => _ end) => destruct x eqn:?
    end.

(** X4.  Every tool declared to the session has a case of its own: a call
    naming it, whose [args] object provides every [required] parameter,
    returns a result, and that result is not the unknown-function one. *)
Theorem declared_tools_answered (isMobile : bool) (perms : string -> bool)
    (fd : FunctionDeclaration) (fc : FunctionCall) (a : list (string * string)) (e : Engine) :
  In fd functionDeclarations -> fc.(fc_name) = fd.(fd_name) -> fc.(fc_args) = Some a ->
  (forall k, In k fd.(fd_required) -> assoc a k <> None) ->
  exists r, snd (dispatch isMobile perms fc e) = Some r /\ snd r <> "error: unknown function".
Proof.
  intros Hfd Hn Ha Hreq.
  assert (Hnt : nothrow (dispatch isMobile perms fc)).
  { apply (dispatch_nothrow isMobile perms fc a Ha).
    destruct (String.eqb_spec fc.(fc_name) "launchApp") as [Hl|Hl]; [right|left; exact Hl].
    apply Hreq; rewrite Hl in Hn.
    unfold functionDeclarations in Hfd.
    repeat (destruct Hfd as [<-|Hfd]; [cbn in Hn |- *; try discriminate Hn; left; reflexivity|]).
    destruct Hfd. }
  assert (Hp : post (fun r : string * string => snd r <> "error: unknown function") (dispatch isMobile perms fc)).
  { unfold dispatch, args_of; rewrite Ha; post_tac; cbn [snd]; try discriminate.
    exfalso; rewrite Hn in *.
    unfold functionDeclarations in Hfd.
    repeat (destruct Hfd as [<-|Hfd];
            [match goal with H : String.eqb (fd_name ?d) ?s = false |- _ =>
               vm_compute in H; discriminate H end|]).
    destruct Hfd. }
  specialize (Hnt e); specialize (Hp e).
  destruct (snd (dispatch isMobile perms fc e)) as [r|]; [exists r; split; [reflexivity|exact Hp] | congruence].
Qed.

(** X5.  A call whose name is not declared to the session is answered
    [error: unknown function]; it reads no argument (an absent [args] is
    fine) and leaves the engine unchanged. *)
Theorem undeclared_tool_unknown (isMobile : bool) (perms : string -> bool) (fc : FunctionCall) (e : Engine) :
  ~ In fc.(fc_name) (map fd_name functionDeclarations) ->
  dispatch isMobile perms fc e
  = (e, Some (("❓ Unknown action attempted: " ++ fc.(fc_name))%string, "error: unknown function")).
Proof.
  intro Hn.
  assert (Hne : forall s, In s (map fd_name functionDeclarations) -> String.eqb fc.(fc_name) s = false).
  { intros s Hs; apply String.eqb_neq; intro E; apply Hn; rewrite E; exact Hs. }
  unfold dispatch; rewrite !Hne by (cbn; tauto); reflexivity.
Qed.

Lemma initialPermissions_supported (id name : string) :
  In (id, name) SUPPORTED_APPS -> initialPermissions id = true.
Proof.
  intro H; unfold initialPermissions; apply existsb_exists.
  exists (id, name); split; [exact H | apply String.eqb_refl].
Qed.

(** X6.  Under the permissions the app starts with, a tool call with an
    [args] object is answered with a [Permission denied] description only
    when it is [launchApp] and its [appName] matches no supported app. *)
Theorem default_permissions_deny_only_unsupported_apps (isMobile : bool) (fc : FunctionCall)
    (a : list (string * string)) (e : Engine) (d r : string) :
  fc.(fc_args) = Some a ->
  snd (dispatch isMobile initialPermissions fc e) = Some (d, r) ->
  String.prefix "❌ Permission denied" d = true ->
  fc.(fc_name) = "launchApp" /\
  exists appName, assoc a "appName" = Some appName
    /\ find (fun app => includes (trim (toLowerCase appName)) (fst app)) SUPPORTED_APPS = None.
Proof.
  intros Ha Hr Hpre.
  assert (Hp : post (fun x : string * string => String.prefix "❌ Permission denied" (fst x) = true ->
                      fc.(fc_name) = "launchApp" /\
                      exists appName, assoc a "appName" = Some appName
                        /\ find (fun app => includes (trim (toLowerCase appName)) (fst app)) SUPPORTED_APPS = None)
                 (dispatch isMobile initialPermissions fc)).
  { unfold dispatch, args_of; rewrite Ha; post_tac; intro Hd; cbn [fst] in Hd;
      try (vm_compute in Hd; discriminate Hd);
      try (match goal with H : negb (initialPermissions _) = true |- _ => vm_compute in H; discriminate H end).
    all: subst; match goal with
         | Hf : find _ SUPPORTED_APPS = Some (?id, ?nm), Hq : initialPermissions ?id = false |- _ =>
             apply find_some in Hf as [Hin _];
             rewrite (initialPermissions_supported _ _ Hin) in Hq; discriminate Hq
         | Hf : find _ SUPPORTED_APPS = None, Hl : String.eqb _ "launchApp" = true |- _ =>
             split; [apply String.eqb_eq; exact Hl | eexists; split; [reflexivity | exact Hf]]
         end. }
  specialize (Hp e); rewrite Hr in Hp; exact (Hp Hpre).
Qed.

Ltac select_case Hn := unfold dispatch; rewrite Hn; cbv [String.eqb Ascii.eqb Bool.eqb].

Lemma bind_ret_l {A B} (a : A) (k : A -> M B) : bind (ret a) k = k a.
Proof. reflexivity. Qed.

(** X7.  [launchApp] either leaves the engine unchanged or performs one
    navigation to a permitted app of [SUPPORTED_APPS]: on desktop a
    [window.open] of its web link, on mobile a 500 ms timer to its URL
    scheme.  The twitter, slack and discord entries of the maps and the
    [://] fallback are never used. *)
Theorem launchApp_navigates_only_to_permitted_apps (isMobile : bool) (perms : string -> bool)
    (fc : FunctionCall) (e : Engine) :
  fc.(fc_name) = "launchApp" ->
  let e' := fst (dispatch isMobile perms fc e) in
  e' = e \/
  exists id name, In (id, name) SUPPORTED_APPS /\ perms id = true /\
    ((isMobile = false /\ exists u, assoc webLinkMap id = Some u
                          /\ e' = set_effects (effects e ++ [WindowOpen u]) e)
     \/ (isMobile = true /\ exists u, assoc appSchemeMap id = Some u
         /\ e' = set_freshId (S (freshId e))
                   (set_timers (timers e ++ [mkTimer (freshId e) 500 (NavigateTo u)]) e))).
Proof.
  intro Hn; cbv zeta; select_case Hn; unfold args_of.
  destruct (fc_args fc) as [a|]; [|left; reflexivity].
  rewrite bind_ret_l; cbv beta.
  destruct (assoc a "appName") as [appName|]; [|left; reflexivity].
  destruct (find _ SUPPORTED_APPS) as [[id name]|] eqn:Hf; [|left; reflexivity].
  apply find_some in Hf as [Hin _].
  destruct (perms id) eqn:Hp; [|left; reflexivity].
  right; exists id, name; split; [exact Hin|split; [exact Hp|]].
  cbn in Hin; destruct isMobile; [right|left]; (split; [reflexivity|]);
    repeat destruct Hin as [Hin|Hin]; try (injection Hin as <- <-); try destruct Hin;
    eexists; split; reflexivity.
Qed.

(** X8.  A [launchApp] call with an [appName] always returns, and its
    description starts with the cross mark exactly when the name matches no
    supported app or the matched app is not permitted; so the
    not-configured answer is never given. *)
Theorem launchApp_denial (isMobile : bool) (perms : string -> bool) (fc : FunctionCall)
    (a : list (string * string)) (appName : string) (e : Engine) :
  fc.(fc_name) = "launchApp" -> fc.(fc_args) = Some a -> assoc a "appName" = Some appName ->
  exists d r, snd (dispatch isMobile perms fc e) = Some (d, r) /\
    (String.prefix "❌" d = true <->
     match find (fun app => includes (trim (toLowerCase appName)) (fst app)) SUPPORTED_APPS with
     | Some (id, _) => perms id = false
     | None => True
     end).
Proof.
  intros Hn Ha Hap; select_case Hn; unfold args_of; rewrite Ha, bind_ret_l; cbv beta; rewrite Hap.
  destruct (find _ SUPPORTED_APPS) as [[id name]|] eqn:Hf.
  - apply find_some in Hf as [Hin _].
    destruct (perms id) eqn:Hp.
    + destruct isMobile.
      * eexists _, _; split; [reflexivity|].
        split; intro H; [vm_compute in H; discriminate H | discriminate H].
      * cbn in Hin; repeat destruct Hin as [Hin|Hin]; try (injection Hin as <- <-); try destruct Hin;
          (eexists _, _; split; [reflexivity|];
           split; intro H; [vm_compute in H; discriminate H | discriminate H]).
    + eexists _, _; split; [reflexivity|]; split; reflexivity.
  - eexists _, _; split; [reflexivity|]; split; reflexivity.
Qed.

Lemma only_digits_digits (s : string) : forallb is_digit (list_ascii_of_string (only_digits s)) = true.
Proof.
  unfold only_digits; rewrite list_ascii_of_string_of_list_ascii.
  induction (list_ascii_of_string s) as [|c l IH]; [reflexivity|].
  cbn; destruct (is_digit c) eqn:Hc; [cbn; rewrite Hc; exact IH | exact IH].
Qed.

(** X9.  [makeCall] never opens a window: it leaves the engine unchanged or,
    on mobile only, schedules one navigation to [tel:] followed by digits
    only. *)
Theorem makeCall_dials_only_digits (isMobile : bool) (perms : string -> bool)
    (fc : FunctionCall) (e : Engine) :
  fc.(fc_name) = "makeCall" ->
  let e' := fst (dispatch isMobile perms fc e) in
  e' = e \/
  (isMobile = true /\
   exists digits, forallb is_digit (list_ascii_of_string digits) = true
     /\ e' = set_freshId (S (freshId e))
               (set_timers (timers e ++ [mkTimer (freshId e) 500 (NavigateTo ("tel:" ++ digits)%string)]) e)).
Proof.
  intro Hn; cbv zeta; select_case Hn; unfold args_of.
  destruct (fc_args fc) as [a|]; [|left; reflexivity].
  rewrite bind_ret_l; cbv beta zeta.
  destruct isMobile; [|left; reflexivity].
  destruct (phone_like _); [|left; reflexivity].
  right; split; [reflexivity|].
  eexists; split; [apply only_digits_digits | reflexivity].
Qed.

Lemma list_ascii_of_string_app (s1 s2 : string) :
  list_ascii_of_string (s1 ++ s2) = list_ascii_of_string s1 ++ list_ascii_of_string s2.
Proof. induction s1 as [|c s1 IH]; cbn; [reflexivity | rewrite IH; reflexivity]. Qed.

Lemma drop_space_app (l1 l2 : list ascii) :
  drop_space l1 = [] -> drop_space (l1 ++ l2) = drop_space l2.
Proof.
  remember (length l1) as n eqn:Hn; revert l1 Hn.
  induction n as [n IH] using lt_wf_ind; intros l1 Hn H.
  destruct l1 as [|c1 r1]; [reflexivity|]; cbn [length] in Hn.
  cbn [app drop_space] in H |- *.
  destruct (is_space c1); [exact (IH (length r1) ltac:(lia) r1 eq_refl H)|].
  destruct r1 as [|c2 r2]; [discriminate H|]; cbn [length] in Hn; cbn [app].
  destruct (is_space2 c1 c2); [exact (IH (length r2) ltac:(lia) r2 eq_refl H)|].
  destruct r2 as [|c3 r3]; [discriminate H|]; cbn [length] in Hn; cbn [app].
  destruct (is_space3 c1 c2 c3); [exact (IH (length r3) ltac:(lia) r3 eq_refl H) | discriminate H].
Qed.

Lemma trim_blank (s : string) : drop_space (list_ascii_of_string s) = [] -> trim s = "".
Proof. intro H; unfold trim; rewrite H; reflexivity. Qed.

Lemma blank_part (v : option string) :
  whitespace_only v = true ->
  drop_space (list_ascii_of_string (if truthy v then (js_str v ++ " ")%string else "")) = [].
Proof.
  destruct v as [s|]; cbn; intro H; [|reflexivity].
  destruct (negb (String.eqb s "")); [|reflexivity].
  rewrite list_ascii_of_string_app, drop_space_app; [reflexivity|].
  destruct (drop_space (list_ascii_of_string s)); [reflexivity | discriminate H].
Qed.

(** X10.  When [song] and [artist] are missing or blank and [playlist] is
    falsy, a permitted [playMusic] opens the Spotify home page. *)
Theorem playMusic_blank_query_opens_home (isMobile : bool) (perms : string -> bool)
    (fc : FunctionCall) (a : list (string * string)) (e : Engine) :
  fc.(fc_name) = "playMusic" -> fc.(fc_args) = Some a -> perms "spotify" = true ->
  whitespace_only (assoc a "song") = true -> whitespace_only (assoc a "artist") = true ->
  truthy (assoc a "playlist") = false ->
  dispatch isMobile perms fc e
  = (set_effects (effects e ++ [WindowOpen "https://open.spotify.com"]) e,
     Some ("🎵 Opening Spotify.", "Opening Spotify for you.")).
Proof.
  intros Hn Ha Hsp Hsong Hartist Hpl; select_case Hn; rewrite Hsp; cbv [negb].
  unfold args_of; rewrite Ha, bind_ret_l; cbv beta zeta; rewrite Hpl.
  rewrite trim_blank; [reflexivity|].
  rewrite !list_ascii_of_string_app.
  rewrite (drop_space_app _ _ (blank_part _ Hsong)), (drop_space_app _ _ (blank_part _ Hartist)).
  reflexivity.
Qed.

(** ** Timer handles *)

Lemma ids_ok_filter (f : Timer -> bool) (e : Engine) :
  timer_ids_ok e -> timer_ids_ok (set_timers (filter f e.(timers)) e).
Proof.
  intros [Hnd Hlt]; unfold timer_ids_ok; cbn; split.
  - clear Hlt; induction (timers e) as [|t ts IH]; cbn in *; [constructor|].
    apply NoDup_cons_iff in Hnd as [Hn Hnd].
    destruct (f t); cbn; [|exact (IH Hnd)].
    constructor; [|exact (IH Hnd)].
    intro Hin; apply Hn; apply in_map_iff in Hin as (t' & Ht' & Hin).
    apply filter_In in Hin as [Hin _]; rewrite <- Ht'; apply in_map; exact Hin.
  - rewrite Forall_forall in *; intros t Hin; apply filter_In in Hin as [Hin _]; exact (Hlt t Hin).
Qed.

Lemma ids_ok_setTimeout (d : Q) (cb : TimerCb) : preserves timer_ids_ok (setTimeout d cb).
Proof.
  intros e [Hnd Hlt]; unfold timer_ids_ok; cbn; rewrite map_app; cbn [map t_id]; split.
  - apply NoDup_app; [exact Hnd | repeat constructor; intros []|].
    intros i Hi [<-|[]]; apply in_map_iff in Hi as (t & Ht & Hin).
    rewrite Forall_forall in Hlt; specialize (Hlt t Hin); lia.
  - apply Forall_app; split; [|constructor; [cbn; lia | constructor]].
    eapply Forall_impl; [|exact Hlt]; intros t Ht; cbn in *; lia.
Qed.

Lemma ids_ok_on_audio (now : Q) (f : nat) : preserves timer_ids_ok (on_audio now f).
Proof.
  intros e [Hnd Hlt]; destruct e as [st ses ms ic oc cap sp op nst os tr ts fid sa fx nac].
  unfold on_audio; cbn in *; destruct oc; cbn; split; try exact Hnd; try exact Hlt.
  eapply Forall_impl; [|exact Hlt]; intros t Ht; cbn in *; lia.
Qed.

Ltac ids_tac :=
  repeat match goal with
  | |- preserves _ (ret _) => apply preserves_ret
  | |- preserves _ throw => apply preserves_throw
  | |- preserves _ get => apply preserves_get
  | |- preserves _ (setTimeout _ _) => apply ids_ok_setTimeout
  | |- preserves _ (on_audio _ _) => apply ids_ok_on_audio
  | |- preserves _ (modify (fun e => set_timers (filter _ e.(timers)) e)) =>
      apply preserves_modify; intros ?e ?H; apply ids_ok_filter; exact H
  | |- preserves _ (modify _) => apply preserves_modify; intros ?e ?H; exact H
  | |- preserves _ (bind _ _) => apply preserves_bind; intros
  | |- preserves _ (forEach _ _) => apply preserves_forEach; intros
  | |- preserves _ (let _ := _ in _) => cbv zeta
  | |- preserves _ (if ?b then _ else _) => destruct b
  | |- preserves _ (match ?x with _ => _ end) => destruct x
  | |- preserves _ _ =>
      progress unfold window_open, emit, setState, clearTimeout, clear_drain_timer,
        cancel_drain_timer, stop_all_sources, args_of, new_AudioContext, close_AudioContext
  end.

Lemma ids_ok_dispatch (isMobile : bool) (perms : string -> bool) (fc : FunctionCall) :
  preserves timer_ids_ok (dispatch isMobile perms fc).
Proof. unfold dispatch; ids_tac. Qed.

Lemma ids_ok_handle_calls (isMobile : bool) (perms : string -> bool) (fcs : list FunctionCall) :
  preserves timer_ids_ok (handle_calls isMobile perms fcs).
Proof.
  induction fcs as [|fc fcs IH]; cbn; ids_tac; [apply ids_ok_dispatch | exact IH].
Qed.

Lemma ids_ok_stopConversation : preserves timer_ids_ok stopConversation.
Proof. unfold stopConversation; ids_tac. Qed.

Lemma ids_ok_step (isMobile : bool) (perms : string -> bool) (ev : Event) (e e' : Engine) :
  timer_ids_ok e -> step isMobile perms ev e = Some e' -> timer_ids_ok e'.
Proof.
  intros Hi Hs; destruct ev; unfold step in Hs.
  - destruct (AssistantState_eqb _ _); [injection Hs as <- | discriminate].
    refine ((_ : preserves timer_ids_ok startConversation_begin) e Hi); unfold startConversation_begin; ids_tac.
  - destruct (startPending e); [injection Hs as <- | discriminate].
    refine ((_ : preserves timer_ids_ok startConversation_resume) e Hi); unfold startConversation_resume; ids_tac.
  - destruct (startPending e); [injection Hs as <- | discriminate].
    refine ((_ : preserves timer_ids_ok startConversation_fail) e Hi); unfold startConversation_fail; ids_tac.
  - destruct (openPending e); [injection Hs as <- | discriminate].
    refine ((_ : preserves timer_ids_ok onopen) e Hi); unfold onopen; ids_tac; apply ids_ok_stopConversation.
  - destruct (_ && _); [injection Hs as <- | discriminate].
    refine ((_ : preserves timer_ids_ok (handleServerMessage isMobile perms now m)) e Hi); unfold handleServerMessage, on_turn_complete, on_interrupted; ids_tac.
    apply ids_ok_handle_calls.
  - destruct (capture e); [injection Hs as <- | discriminate].
    refine ((_ : preserves timer_ids_ok (onaudioprocess inputData)) e Hi); unfold onaudioprocess; ids_tac.
  - destruct (find _ _) as [t|]; [injection Hs as <- | discriminate].
    refine ((_ : preserves timer_ids_ok (run_timer t)) e Hi); unfold run_timer; ids_tac.
  - injection Hs as <-; refine ((_ : preserves timer_ids_ok (on_ended id)) e Hi); unfold on_ended; ids_tac.
  - injection Hs as <-; exact (ids_ok_stopConversation e Hi).
Qed.

Lemma reachable_ids_ok (isMobile : bool) (perms : string -> bool) (e : Engine) :
  reachable isMobile perms e -> timer_ids_ok e.
Proof.
  intros [evs Hr]; assert (H0 : timer_ids_ok initEngine) by (split; constructor).
  revert Hr H0; generalize initEngine as e0; induction evs as [|ev evs IH]; intros e0 Hr H0; cbn in Hr.
  - injection Hr as <-; exact H0.
  - destruct (step isMobile perms ev e0) as [e1|] eqn:Hs; [|discriminate].
    exact (IH e1 Hr (ids_ok_step isMobile perms ev e0 e1 H0 Hs)).
Qed.

(** X11.  In every reachable engine at most one drain-to-listening timer is
    pending. *)
Theorem single_drain_timer (isMobile : bool) (perms : string -> bool) (e : Engine) (t1 t2 : Timer) :
  reachable isMobile perms e ->
  In t1 e.(timers) -> In t2 e.(timers) ->
  t1.(t_cb) = DrainToListening -> t2.(t_cb) = DrainToListening -> t1 = t2.
Proof.
  intros Hr H1 H2 C1 C2.
  pose proof (reachable_drain_ok isMobile perms e Hr) as Hd.
  destruct (reachable_ids_ok isMobile perms e Hr) as [Hnd _].
  pose proof (Hd t1 H1 C1) as E1; pose proof (Hd t2 H2 C2) as E2.
  rewrite E1 in E2; injection E2 as E.
  clear - Hnd H1 H2 E; induction (timers e) as [|t ts IH]; [destruct H1|].
  cbn in Hnd; apply NoDup_cons_iff in Hnd as [Hn Hnd].
  destruct H1 as [<-|H1], H2 as [<-|H2]; try reflexivity.
  - exfalso; apply Hn; rewrite E; apply in_map; exact H2.
  - exfalso; apply Hn; rewrite <- E; apply in_map; exact H1.
  - exact (IH H1 H2 Hnd).
Qed.

(** ** Transcript, activation and settings *)

Lemma string_app_assoc (a b c : string) : ((a ++ b) ++ c)%string = (a ++ (b ++ c))%string.
Proof. induction a as [|x a IH]; cbn; [reflexivity | rewrite IH; reflexivity]. Qed.

Lemma string_app_nil_r (a : string) : (a ++ "")%string = a.
Proof. induction a as [|x a IH]; cbn; [reflexivity | rewrite IH; reflexivity]. Qed.

Lemma feedTranscription_app (t : Transcript.Transcription) (ms1 ms2 : list Transcript.ServerContent) :
  Transcript.feedTranscription t (ms1 ++ ms2)
  = Transcript.feedTranscription (Transcript.feedTranscription t ms1) ms2.
Proof. revert t; induction ms1 as [|m ms1 IH]; intro t; [reflexivity | apply IH]. Qed.

Lemma feedTranscription_no_turn (t : Transcript.Transcription) (ms : list Transcript.ServerContent) :
  Forall (fun m => Transcript.turnComplete m = false) ms ->
  Transcript.feedTranscription t ms
  = Transcript.mkTranscription
      (Transcript.user t ++ String.concat "" (map (fun m => Transcript.delta (Transcript.inputTranscription m)) ms))
      (Transcript.model t ++ String.concat "" (map (fun m => Transcript.delta (Transcript.outputTranscription m)) ms)).
Proof.
  revert t; induction ms as [|m ms IH]; intros [u md] Hf; cbn.
  - rewrite !string_app_nil_r; reflexivity.
  - inversion Hf as [|? ? Hm Hms]; subst.
    unfold Transcript.handleTranscription; rewrite Hm.
    rewrite (IH _ Hms); cbn.
    destruct (Transcript.inputTranscription m) as [i|], (Transcript.outputTranscription m) as [o|]; cbn;
      destruct ms; cbn; rewrite ?string_app_nil_r, ?string_app_assoc; reflexivity.
Qed.

(** X13.  The transcript holds exactly the text received after the last
    [turnComplete], concatenated in order (a transcription without text adds
    [undefined]); the text carried by the [turnComplete] message itself is
    dropped. *)
Theorem transcript_since_last_turn (t : Transcript.Transcription)
    (ms1 : list Transcript.ServerContent) (m : Transcript.ServerContent)
    (ms2 : list Transcript.ServerContent) :
  Transcript.turnComplete m = true ->
  Forall (fun m' => Transcript.turnComplete m' = false) ms2 ->
  Transcript.feedTranscription t (ms1 ++ m :: ms2)
  = Transcript.mkTranscription
      (String.concat "" (map (fun m' => Transcript.delta (Transcript.inputTranscription m')) ms2))
      (String.concat "" (map (fun m' => Transcript.delta (Transcript.outputTranscription m')) ms2)).
Proof.
  intros Hm Hms; rewrite feedTranscription_app; cbn.
  unfold Transcript.handleTranscription at 1; rewrite Hm.
  rewrite (feedTranscription_no_turn _ _ Hms); reflexivity.
Qed.

(** X14.  The main button is disabled exactly when it has no action; it
    stops the conversation exactly while listening or speaking; it offers to
    start exactly when idle, unless in automatic mode without an error, and
    the engine then accepts a start. *)
Theorem button_action_matches_state (activationMode : ActivationMode) (st : AssistantState)
    (error : option string) :
  let b := getButtonState activationMode st error in
  (disabled b = true <-> action b = NoAction) /\
  (action b = StopAction <-> st = Listening \/ st = Speaking) /\
  (action b = StartAction <-> st = Idle /\ (is_automatic activationMode = false \/ truthy error = true)) /\
  (action b = StartAction ->
   forall isMobile perms e, state e = st -> step isMobile perms EvStart e <> None).
Proof.
  cbv zeta; destruct activationMode, st, (truthy error) eqn:He; unfold getButtonState; rewrite ?He; cbn;
    (split; [|split; [|split]]); try (split; intro H; try discriminate H; intuition discriminate);
    try (intros H; discriminate H);
    intros _ isMobile perms e Hs; unfold step; rewrite Hs; discriminate.
Qed.

Lemma autoStartRuns_tried (obs : list (ActivationMode * AssistantState * option string)) :
  autoStartRuns true obs = 0%nat.
Proof.
  induction obs as [|[[m st] err] obs IH]; [reflexivity|].
  cbn [autoStartRuns]; unfold autoStartEffect; rewrite andb_false_r; exact IH.
Qed.

(** X16.  In automatic mode, once the auto-start has been tried, an idle view
    without an error offers nothing: the button is disabled with no action
    and the effect never starts again, whatever modes, states and errors
    follow. *)
Theorem automatic_mode_no_restart (error : option string)
    (obs : list (ActivationMode * AssistantState * option string)) :
  truthy error = false ->
  action (getButtonState Automatic Idle error) = NoAction /\
  disabled (getButtonState Automatic Idle error) = true /\
  autoStartRuns true obs = 0%nat.
Proof.
  intro He; unfold getButtonState; rewrite He; cbn; split; [reflexivity|split; [reflexivity|]].
  apply autoStartRuns_tried.
Qed.


(** X15.  During one mount the automatic-activation effect calls
    [startConversation] at most once, whatever activation modes, states and
    errors it sees, also when the mode is switched back and forth. *)
Theorem auto_start_at_most_once (obs : list (ActivationMode * AssistantState * option string)) :
  (autoStartRuns false obs <= 1)%nat.
Proof.
  induction obs as [|[[m st] err] obs IH]; cbn; [lia|].
  unfold autoStartEffect; destruct (_ && _ && _ && _); cbn.
  - rewrite autoStartRuns_tried; lia.
  - exact IH.
Qed.

(** X17.  Toggling an app twice in the settings restores every permission,
    and a toggle leaves the other apps unchanged. *)
Theorem handleToggle_twice (appPermissions : string -> bool) (appId k : string) :
  handleToggle (handleToggle appPermissions appId) appId k = appPermissions k /\
  (k <> appId -> handleToggle appPermissions appId k = appPermissions k).
Proof.
  unfold handleToggle; rewrite String.eqb_refl; split.
  - destruct (String.eqb_spec k appId) as [->|_]; [apply negb_involutive | reflexivity].
  - intro Hk; apply String.eqb_neq in Hk; rewrite Hk; reflexivity.
Qed.

(** X12.  When the microphone is refused after a start from idle, the view is
    idle again with its output audio context still open; nothing is closed
    and no effect is produced. *)
Theorem media_denied_leaves_output_open (isMobile : bool) (perms : string -> bool) (e e' : Engine) :
  state e = Idle ->
  run isMobile perms [EvStart; EvMediaDenied] e = Some e' ->
  state e' = Idle /\ outputCtx e' = true /\ startPending e' = false
  /\ effects e' = effects e /\ session e' = session e.
Proof.
  destruct e as [st ses ms ic oc cap sp op nst os tr ts fid sa fx nac]; cbn; intros -> H.
  injection H as <-; cbn; repeat split; reflexivity.
Qed.

(** ** Stopping, further *)

(** X18.  From any reachable configuration, [stopConversation] closes
    exactly what the refs hold, in the order of the code: the session if one
    is set, the media tracks, the input context, every queued source and the
    output context, each only when its ref is set, and it emits nothing
    else; the number of open audio contexts drops by the number of context
    refs that were set.  It ends idle with every ref null, the source set
    empty and no drain timer, and a second call changes nothing. *)
Theorem stopConversation_closes_held_resources (isMobile : bool) (perms : string -> bool) (e : Engine) :
  reachable isMobile perms e ->
  let e' := exec stopConversation e in
  e'.(state) = Idle /\ e'.(session) = false /\ e'.(mediaStream) = false
  /\ e'.(capture) = false /\ e'.(inputCtx) = false /\ e'.(outputCtx) = false
  /\ e'.(outputSources) = [] /\ no_drain_timer e'
  /\ e'.(effects) = e.(effects) ++ (if e.(session) then [CloseSession] else [])
                     ++ (if e.(mediaStream) then [StopTracks] else [])
                     ++ (if e.(inputCtx) then [CloseInputCtx] else [])
                     ++ map StopSource e.(outputSources)
                     ++ (if e.(outputCtx) then [CloseOutputCtx] else [])
  /\ e'.(openAudioContexts)
     = (e.(openAudioContexts) - (if e.(inputCtx) then 1 else 0) - (if e.(outputCtx) then 1 else 0))%nat
  /\ exec stopConversation e' = e'.
Proof.
  intro Hr; pose proof (reachable_drain_ok _ _ _ Hr) as Hd.
  destruct (stopConversation_spec e Hd) as (A & B & C & D & E & F & G & _ & I & _).
  destruct (cancel_drain_timer_spec e Hd) as (_ & Hr0 & He); cbv zeta in He.
  cbv zeta; refine (conj A (conj B (conj C (conj D (conj E (conj F (conj G (conj I (conj _ (conj _ _)))))))))).
  - rewrite stop_via_cancel, (stop_after_cancel _ Hr0), He; reflexivity.
  - rewrite stop_via_cancel, (stop_after_cancel _ Hr0), He; cbn.
    destruct (inputCtx e), (outputCtx e); cbn; lia.
  - apply stopConversation_twice.
Qed.

(** ** Witnesses of the further properties *)

Lemma encodeURIComponent_alphabet_witness :
  In "%"%char (list_ascii_of_string (encodeURIComponent "a&b"))
  /\ (uri_unreserved "%"%char = true \/ "%"%char = "%"%char).
Proof.
  assert (H : In "%"%char (list_ascii_of_string (encodeURIComponent "a&b")))
    by (simpl; right; left; reflexivity).
  exact (conj H (encodeURIComponent_alphabet "a&b" "%" H)).
Defined.

Lemma encodeURIComponent_injective_witness :
  encodeURIComponent "a b" = encodeURIComponent "a b" /\ "a b" = "a b".
Proof.
  assert (H : encodeURIComponent "a b" = encodeURIComponent "a b") by reflexivity.
  exact (conj H (encodeURIComponent_injective "a b" "a b" H)).
Defined.

Lemma encodeURIComponent_unreserved_id_witness :
  forallb uri_unreserved (list_ascii_of_string "Hello-World_1.0") = true
  /\ encodeURIComponent "Hello-World_1.0" = "Hello-World_1.0".
Proof.
  assert (H : forallb uri_unreserved (list_ascii_of_string "Hello-World_1.0") = true) by (vm_compute; reflexivity).
  exact (conj H (encodeURIComponent_unreserved_id "Hello-World_1.0" H)).
Defined.

Lemma declared_tools_answered_witness :
  In launchAppFunctionDeclaration functionDeclarations
  /\ fc_name (mkCall "call-1" "launchApp" (Some [("appName", "Spotify")])) = fd_name launchAppFunctionDeclaration
  /\ fc_args (mkCall "call-1" "launchApp" (Some [("appName", "Spotify")])) = Some [("appName", "Spotify")]
  /\ (forall k, In k (fd_required launchAppFunctionDeclaration) -> assoc [("appName", "Spotify")] k <> None)
  /\ exists r, snd (dispatch false (fun _ => true) (mkCall "call-1" "launchApp" (Some [("appName", "Spotify")])) initEngine) = Some r
       /\ snd r <> "error: unknown function".
Proof.
  assert (H1 : In launchAppFunctionDeclaration functionDeclarations)
    by (unfold functionDeclarations; simpl; do 10 right; left; reflexivity).
  assert (H2 : fc_name (mkCall "call-1" "launchApp" (Some [("appName", "Spotify")])) = fd_name launchAppFunctionDeclaration)
    by reflexivity.
  assert (H3 : fc_args (mkCall "call-1" "launchApp" (Some [("appName", "Spotify")])) = Some [("appName", "Spotify")])
    by reflexivity.
  assert (H4 : forall k, In k (fd_required launchAppFunctionDeclaration) -> assoc [("appName", "Spotify")] k <> None)
    by (intros k Hk; simpl in Hk; destruct Hk as [<-|[]]; vm_compute; discriminate).
  exact (conj H1 (conj H2 (conj H3 (conj H4
           (declared_tools_answered false (fun _ => true) launchAppFunctionDeclaration
              (mkCall "call-1" "launchApp" (Some [("appName", "Spotify")])) [("appName", "Spotify")]
              initEngine H1 H2 H3 H4))))).
Defined.

Lemma undeclared_tool_unknown_witness :
  ~ In (fc_name (mkCall "call-1" "openDoor" None)) (map fd_name functionDeclarations)
  /\ dispatch false (fun _ => true) (mkCall "call-1" "openDoor" None) initEngine
     = (initEngine, Some (("❓ Unknown action attempted: " ++ "openDoor")%string, "error: unknown function")).
Proof.
  assert (H : ~ In (fc_name (mkCall "call-1" "openDoor" None)) (map fd_name functionDeclarations))
    by (intro H; vm_compute in H; repeat (destruct H as [H|H]; [discriminate H|]); exact H).
  exact (conj H (undeclared_tool_unknown false (fun _ => true) (mkCall "call-1" "openDoor" None) initEngine H)).
Defined.

Lemma default_permissions_deny_only_unsupported_apps_witness :
  fc_args (mkCall "call-1" "launchApp" (Some [("appName", "Twitter")])) = Some [("appName", "Twitter")]
  /\ snd (dispatch false initialPermissions (mkCall "call-1" "launchApp" (Some [("appName", "Twitter")])) initEngine)
     = Some ("❌ Permission denied for Twitter.",
             "I don't have permission to launch Twitter. You can enable this in the settings.")
  /\ String.prefix "❌ Permission denied" "❌ Permission denied for Twitter." = true
  /\ fc_name (mkCall "call-1" "launchApp" (Some [("appName", "Twitter")])) = "launchApp"
  /\ exists appName, assoc [("appName", "Twitter")] "appName" = Some appName
       /\ find (fun app => includes (trim (toLowerCase appName)) (fst app)) SUPPORTED_APPS = None.
Proof.
  assert (H1 : fc_args (mkCall "call-1" "launchApp" (Some [("appName", "Twitter")])) = Some [("appName", "Twitter")])
    by reflexivity.
  assert (H2 : snd (dispatch false initialPermissions (mkCall "call-1" "launchApp" (Some [("appName", "Twitter")])) initEngine)
     = Some ("❌ Permission denied for Twitter.",
             "I don't have permission to launch Twitter. You can enable this in the settings."))
    by (vm_compute; reflexivity).
  assert (H3 : String.prefix "❌ Permission denied" "❌ Permission denied for Twitter." = true)
    by (vm_compute; reflexivity).
  exact (conj H1 (conj H2 (conj H3
           (default_permissions_deny_only_unsupported_apps false
              (mkCall "call-1" "launchApp" (Some [("appName", "Twitter")])) [("appName", "Twitter")]
              initEngine _ _ H1 H2 H3)))).
Defined.

Lemma launchApp_navigates_only_to_permitted_apps_witness :
  fc_name (mkCall "call-1" "launchApp" (Some [("appName", "Open YouTube")])) = "launchApp"
  /\ let e' := fst (dispatch true (fun _ => true) (mkCall "call-1" "launchApp" (Some [("appName", "Open YouTube")])) initEngine) in
     e' = initEngine \/
     exists id name, In (id, name) SUPPORTED_APPS /\ (fun _ => true) id = true /\
       ((true = false /\ exists u, assoc webLinkMap id = Some u
                         /\ e' = set_effects (effects initEngine ++ [WindowOpen u]) initEngine)
        \/ (true = true /\ exists u, assoc appSchemeMap id = Some u
            /\ e' = set_freshId (S (freshId initEngine))
                      (set_timers (timers initEngine ++ [mkTimer (freshId initEngine) 500 (NavigateTo u)]) initEngine))).
Proof.
  assert (H : fc_name (mkCall "call-1" "launchApp" (Some [("appName", "Open YouTube")])) = "launchApp") by reflexivity.
  exact (conj H (launchApp_navigates_only_to_permitted_apps true (fun _ => true)
                   (mkCall "call-1" "launchApp" (Some [("appName", "Open YouTube")])) initEngine H)).
Defined.

Lemma launchApp_denial_witness :
  fc_name (mkCall "call-1" "launchApp" (Some [("appName", "WhatsApp")])) = "launchApp"
  /\ fc_args (mkCall "call-1" "launchApp" (Some [("appName", "WhatsApp")])) = Some [("appName", "WhatsApp")]
  /\ assoc [("appName", "WhatsApp")] "appName" = Some "WhatsApp"
  /\ exists d r, snd (dispatch false (fun k => negb (String.eqb k "whatsapp"))
                        (mkCall "call-1" "launchApp" (Some [("appName", "WhatsApp")])) initEngine) = Some (d, r) /\
       (String.prefix "❌" d = true <->
        match find (fun app => includes (trim (toLowerCase "WhatsApp")) (fst app)) SUPPORTED_APPS with
        | Some (id, _) => negb (String.eqb id "whatsapp") = false
        | None => True
        end).
Proof.
  assert (H1 : fc_name (mkCall "call-1" "launchApp" (Some [("appName", "WhatsApp")])) = "launchApp") by reflexivity.
  assert (H2 : fc_args (mkCall "call-1" "launchApp" (Some [("appName", "WhatsApp")])) = Some [("appName", "WhatsApp")])
    by reflexivity.
  assert (H3 : assoc [("appName", "WhatsApp")] "appName" = Some "WhatsApp") by (vm_compute; reflexivity).
  exact (conj H1 (conj H2 (conj H3
           (launchApp_denial false (fun k => negb (String.eqb k "whatsapp"))
              (mkCall "call-1" "launchApp" (Some [("appName", "WhatsApp")])) [("appName", "WhatsApp")]
              "WhatsApp" initEngine H1 H2 H3)))).
Defined.

Lemma makeCall_dials_only_digits_witness :
  fc_name (mkCall "call-1" "makeCall" (Some [("contact", "+ -")])) = "makeCall"
  /\ let e' := fst (dispatch true (fun _ => true) (mkCall "call-1" "makeCall" (Some [("contact", "+ -")])) initEngine) in
     e' = initEngine \/
     (true = true /\
      exists digits, forallb is_digit (list_ascii_of_string digits) = true
        /\ e' = set_freshId (S (freshId initEngine))
                  (set_timers (timers initEngine ++ [mkTimer (freshId initEngine) 500 (NavigateTo ("tel:" ++ digits)%string)]) initEngine)).
Proof.
  assert (H : fc_name (mkCall "call-1" "makeCall" (Some [("contact", "+ -")])) = "makeCall") by reflexivity.
  exact (conj H (makeCall_dials_only_digits true (fun _ => true)
                   (mkCall "call-1" "makeCall" (Some [("contact", "+ -")])) initEngine H)).
Defined.

Lemma playMusic_blank_query_opens_home_witness :
  fc_name (mkCall "call-1" "playMusic" (Some [("song", (nbsp ++ " " ++ nbsp)%string); ("artist", "")])) = "playMusic"
  /\ fc_args (mkCall "call-1" "playMusic" (Some [("song", (nbsp ++ " " ++ nbsp)%string); ("artist", "")])) = Some [("song", (nbsp ++ " " ++ nbsp)%string); ("artist", "")]
  /\ (fun _ : string => true) "spotify" = true
  /\ whitespace_only (assoc [("song", (nbsp ++ " " ++ nbsp)%string); ("artist", "")] "song") = true
  /\ whitespace_only (assoc [("song", (nbsp ++ " " ++ nbsp)%string); ("artist", "")] "artist") = true
  /\ truthy (assoc [("song", (nbsp ++ " " ++ nbsp)%string); ("artist", "")] "playlist") = false
  /\ dispatch false (fun _ => true) (mkCall "call-1" "playMusic" (Some [("song", (nbsp ++ " " ++ nbsp)%string); ("artist", "")])) initEngine
     = (set_effects (effects initEngine ++ [WindowOpen "https://open.spotify.com"]) initEngine,
        Some ("🎵 Opening Spotify.", "Opening Spotify for you.")).
Proof.
  assert (H1 : fc_name (mkCall "call-1" "playMusic" (Some [("song", (nbsp ++ " " ++ nbsp)%string); ("artist", "")])) = "playMusic") by reflexivity.
  assert (H2 : fc_args (mkCall "call-1" "playMusic" (Some [("song", (nbsp ++ " " ++ nbsp)%string); ("artist", "")]))
               = Some [("song", (nbsp ++ " " ++ nbsp)%string); ("artist", "")]) by reflexivity.
  assert (H3 : (fun _ : string => true) "spotify" = true) by reflexivity.
  assert (H4 : whitespace_only (assoc [("song", (nbsp ++ " " ++ nbsp)%string); ("artist", "")] "song") = true) by (vm_compute; reflexivity).
  assert (H5 : whitespace_only (assoc [("song", (nbsp ++ " " ++ nbsp)%string); ("artist", "")] "artist") = true) by (vm_compute; reflexivity).
  assert (H6 : truthy (assoc [("song", (nbsp ++ " " ++ nbsp)%string); ("artist", "")] "playlist") = false) by (vm_compute; reflexivity).
  exact (conj H1 (conj H2 (conj H3 (conj H4 (conj H5 (conj H6
           (playMusic_blank_query_opens_home false (fun _ => true)
              (mkCall "call-1" "playMusic" (Some [("song", (nbsp ++ " " ++ nbsp)%string); ("artist", "")])) [("song", (nbsp ++ " " ++ nbsp)%string); ("artist", "")]
              initEngine H1 H2 H3 H4 H5 H6))))))).
Defined.

Lemma single_drain_timer_witness :
  reachable false (fun _ => true) (run_or_init false (fun _ => true)
       (session_open ++ [EvMessage 0 (audio_msg 2400); EvMessage 0 (mkMessage false true None None false)]))
  /\ In (hd (mkTimer 0 0 DrainToListening) (timers (run_or_init false (fun _ => true)
       (session_open ++ [EvMessage 0 (audio_msg 2400); EvMessage 0 (mkMessage false true None None false)])))) (timers (run_or_init false (fun _ => true)
       (session_open ++ [EvMessage 0 (audio_msg 2400); EvMessage 0 (mkMessage false true None None false)])))
  /\ In (last (timers (run_or_init false (fun _ => true)
       (session_open ++ [EvMessage 0 (audio_msg 2400); EvMessage 0 (mkMessage false true None None false)]))) (mkTimer 0 0 DrainToListening)) (timers (run_or_init false (fun _ => true)
       (session_open ++ [EvMessage 0 (audio_msg 2400); EvMessage 0 (mkMessage false true None None false)])))
  /\ t_cb (hd (mkTimer 0 0 DrainToListening) (timers (run_or_init false (fun _ => true)
       (session_open ++ [EvMessage 0 (audio_msg 2400); EvMessage 0 (mkMessage false true None None false)])))) = DrainToListening
  /\ t_cb (last (timers (run_or_init false (fun _ => true)
       (session_open ++ [EvMessage 0 (audio_msg 2400); EvMessage 0 (mkMessage false true None None false)]))) (mkTimer 0 0 DrainToListening)) = DrainToListening
  /\ hd (mkTimer 0 0 DrainToListening) (timers (run_or_init false (fun _ => true)
       (session_open ++ [EvMessage 0 (audio_msg 2400); EvMessage 0 (mkMessage false true None None false)]))) = last (timers (run_or_init false (fun _ => true)
       (session_open ++ [EvMessage 0 (audio_msg 2400); EvMessage 0 (mkMessage false true None None false)]))) (mkTimer 0 0 DrainToListening).
Proof.
  assert (Hr : reachable false (fun _ => true) (run_or_init false (fun _ => true)
       (session_open ++ [EvMessage 0 (audio_msg 2400); EvMessage 0 (mkMessage false true None None false)])))
    by (exists (session_open ++ [EvMessage 0 (audio_msg 2400); EvMessage 0 (mkMessage false true None None false)]);
        vm_compute; reflexivity).
  assert (H1 : In (hd (mkTimer 0 0 DrainToListening) (timers (run_or_init false (fun _ => true)
       (session_open ++ [EvMessage 0 (audio_msg 2400); EvMessage 0 (mkMessage false true None None false)])))) (timers (run_or_init false (fun _ => true)
       (session_open ++ [EvMessage 0 (audio_msg 2400); EvMessage 0 (mkMessage false true None None false)])))) by (vm_compute; left; reflexivity).
  assert (H2 : In (last (timers (run_or_init false (fun _ => true)
       (session_open ++ [EvMessage 0 (audio_msg 2400); EvMessage 0 (mkMessage false true None None false)]))) (mkTimer 0 0 DrainToListening)) (timers (run_or_init false (fun _ => true)
       (session_open ++ [EvMessage 0 (audio_msg 2400); EvMessage 0 (mkMessage false true None None false)])))) by (vm_compute; left; reflexivity).
  assert (C1 : t_cb (hd (mkTimer 0 0 DrainToListening) (timers (run_or_init false (fun _ => true)
       (session_open ++ [EvMessage 0 (audio_msg 2400); EvMessage 0 (mkMessage false true None None false)])))) = DrainToListening) by (vm_compute; reflexivity).
  assert (C2 : t_cb (last (timers (run_or_init false (fun _ => true)
       (session_open ++ [EvMessage 0 (audio_msg 2400); EvMessage 0 (mkMessage false true None None false)]))) (mkTimer 0 0 DrainToListening)) = DrainToListening) by (vm_compute; reflexivity).
  exact (conj Hr (conj H1 (conj H2 (conj C1 (conj C2
           (single_drain_timer false (fun _ => true) _ _ _ Hr H1 H2 C1 C2)))))).
Defined.

Lemma media_denied_leaves_output_open_witness :
  state initEngine = Idle
  /\ run false (fun _ => true) [EvStart; EvMediaDenied] initEngine
     = Some (run_or_init false (fun _ => true) [EvStart; EvMediaDenied])
  /\ state (run_or_init false (fun _ => true) [EvStart; EvMediaDenied]) = Idle
  /\ outputCtx (run_or_init false (fun _ => true) [EvStart; EvMediaDenied]) = true
  /\ startPending (run_or_init false (fun _ => true) [EvStart; EvMediaDenied]) = false
  /\ effects (run_or_init false (fun _ => true) [EvStart; EvMediaDenied]) = effects initEngine
  /\ session (run_or_init false (fun _ => true) [EvStart; EvMediaDenied]) = session initEngine.
Proof.
  assert (H1 : state initEngine = Idle) by reflexivity.
  assert (H2 : run false (fun _ => true) [EvStart; EvMediaDenied] initEngine
               = Some (run_or_init false (fun _ => true) [EvStart; EvMediaDenied])) by (vm_compute; reflexivity).
  exact (conj H1 (conj H2 (media_denied_leaves_output_open false (fun _ => true) _ _ H1 H2))).
Defined.

Lemma transcript_since_last_turn_witness :
  Transcript.turnComplete (Transcript.mkServerContent (Some (Some "lo")) (Some None) true) = true
  /\ Forall (fun m' => Transcript.turnComplete m' = false)
       [Transcript.mkServerContent (Some (Some "next")) (Some (Some "reply")) false]
  /\ Transcript.feedTranscription Transcript.empty
       ([Transcript.mkServerContent (Some (Some "hel")) None false]
        ++ Transcript.mkServerContent (Some (Some "lo")) (Some None) true
        :: [Transcript.mkServerContent (Some (Some "next")) (Some (Some "reply")) false])
     = Transcript.mkTranscription
         (String.concat "" (map (fun m' => Transcript.delta (Transcript.inputTranscription m'))
            [Transcript.mkServerContent (Some (Some "next")) (Some (Some "reply")) false]))
         (String.concat "" (map (fun m' => Transcript.delta (Transcript.outputTranscription m'))
            [Transcript.mkServerContent (Some (Some "next")) (Some (Some "reply")) false])).
Proof.
  assert (H1 : Transcript.turnComplete (Transcript.mkServerContent (Some (Some "lo")) (Some None) true) = true)
    by reflexivity.
  assert (H2 : Forall (fun m' => Transcript.turnComplete m' = false)
                 [Transcript.mkServerContent (Some (Some "next")) (Some (Some "reply")) false])
    by (constructor; [reflexivity | constructor]).
  exact (conj H1 (conj H2 (transcript_since_last_turn Transcript.empty
           [Transcript.mkServerContent (Some (Some "hel")) None false]
           (Transcript.mkServerContent (Some (Some "lo")) (Some None) true)
           [Transcript.mkServerContent (Some (Some "next")) (Some (Some "reply")) false] H1 H2))).
Defined.

Lemma automatic_mode_no_restart_witness :
  truthy None = false
  /\ action (getButtonState Automatic Idle None) = NoAction
  /\ disabled (getButtonState Automatic Idle None) = true
  /\ autoStartRuns true [(Automatic, Idle, None); (PushToTalk, Listening, None); (Automatic, Idle, None)] = 0%nat.
Proof.
  assert (H : truthy None = false) by reflexivity.
  exact (conj H (automatic_mode_no_restart None
    [(Automatic, Idle, None); (PushToTalk, Listening, None); (Automatic, Idle, None)] H)).
Defined.

Lemma stopConversation_closes_held_resources_witness :
  reachable false (fun _ => true) playing_engine
  /\ let e' := exec stopConversation playing_engine in
     e'.(state) = Idle /\ e'.(session) = false /\ e'.(mediaStream) = false
     /\ e'.(capture) = false /\ e'.(inputCtx) = false /\ e'.(outputCtx) = false
     /\ e'.(outputSources) = [] /\ no_drain_timer e'
     /\ e'.(effects) = playing_engine.(effects)
                        ++ (if playing_engine.(session) then [CloseSession] else [])
                        ++ (if playing_engine.(mediaStream) then [StopTracks] else [])
                        ++ (if playing_engine.(inputCtx) then [CloseInputCtx] else [])
                        ++ map StopSource playing_engine.(outputSources)
                        ++ (if playing_engine.(outputCtx) then [CloseOutputCtx] else [])
     /\ e'.(openAudioContexts)
        = (playing_engine.(openAudioContexts) - (if playing_engine.(inputCtx) then 1 else 0)
           - (if playing_engine.(outputCtx) then 1 else 0))%nat
     /\ exec stopConversation e' = e'.
Proof.
  assert (H : reachable false (fun _ => true) playing_engine)
    by (exists (session_open ++ [EvMessage 0 (audio_msg 2400)]); vm_compute; reflexivity).
  exact (conj H (stopConversation_closes_held_resources false (fun _ => true) playing_engine H)).
Defined.
